(** * sz_simple_redoer: the redo-queue worker loop

    A shallow embedding of [sz_simple_redoer.py].  The coordinating thread's
    loop variables form an explicit [State]; everything the loop obtains from
    the outside world in one iteration (clock readings, the completed set
    returned by [concurrent.futures.wait], task results, the engine's
    answers, the governor's decision) is an [IterInput]; everything the loop
    does to the outside world is recorded as a list of [event]s.

    Clock readings and durations are Python floats in the source; they are
    rationals ([Q]) here, so comparisons and the arithmetic on them are exact.
    Formatted output ([print] of f-strings) is kept structured: a [line] holds
    the values that are interpolated, not the rendered text. *)

From Stdlib Require Import List String ZArith QArith Qround Bool Arith Lia.
From Stdlib Require Import Sorted.
Import ListNotations.

Set Warnings "-register-all".
Local Open Scope Z_scope.

(** ** Python values and exceptions *)

(** The exceptions the program can meet.  [G2BadInputException] carries the
    value [ExceptionCode(err)] computes from it. *)
Inductive exn : Type :=
| G2BadInputException (code : Z)
| G2RetryTimeoutExceeded
| KeyError
| TypeError
| NameError (name : string)
| AttributeError
| JSONDecodeError
| OtherException (name : string).

(** What [os.getenv(name, default=300)] can give: the [int] default when the
    variable is unset, the variable's text when it is set. *)
Inductive pyval : Type :=
| PyInt (n : Z)
| PyStr (s : string).

Definition getenv (value : option string) (default : Z) : pyval :=
  match value with
  | Some s => PyStr s
  | None => PyInt default
  end.

(** [v / n]: true division on an [int], [TypeError] on a [str]. *)
Definition py_truediv (v : pyval) (n : Z) : exn + Q :=
  match v with
  | PyInt a => inr (inject_Z a / inject_Z n)%Q
  | PyStr _ => inl TypeError
  end.

(** [v * n]: product of [int]s, repetition of a [str]. *)
Fixpoint str_repeat (s : string) (n : nat) : string :=
  match n with
  | O => EmptyString
  | S k => (s ++ str_repeat s k)%string
  end.

Definition py_mul (v : pyval) (n : Z) : pyval :=
  match v with
  | PyInt a => PyInt (a * n)
  | PyStr s => PyStr (str_repeat s (Z.to_nat n))
  end.

Definition Qltb (x y : Q) : bool :=
  match (x ?= y)%Q with
  | Lt => true
  | _ => false
  end.

(** [d > v] for a float [d]: a comparison with an [int], [TypeError] with a
    [str]. *)
Definition py_float_gt (d : Q) (v : pyval) : exn + bool :=
  match v with
  | PyInt a => inr (Qltb (inject_Z a) d)
  | PyStr _ => inl TypeError
  end.

(** [int(q)] on a float: truncation toward zero. *)
Definition py_int (q : Q) : Z := Z.quot (Qnum q) (Z.pos (Qden q)).

(** ** Module constants *)

Definition INTERVAL : Z := 1000.

Definition LONG_RECORD (env_LONG_RECORD : option string) : pyval :=
  getenv env_LONG_RECORD 300.

(** [int(os.getenv("SENZING_REDO_SLEEP_TIME_IN_SECONDS", default=60))]; the
    argument is the variable's value as [int] reads it, [None] when unset. *)
Definition EMPTY_PAUSE_TIME (env_SLEEP_TIME : option Z) : Z :=
  match env_SLEEP_TIME with
  | Some n => n
  | None => 60
  end.

(** ** Decoded records and [loggingID] *)

(** What [orjson.loads] returns.  A [JObj] lists the items of the decoded
    [dict], keys distinct. *)
Inductive json : Type :=
| JNull
| JBool (b : bool)
| JNum (q : Q)
| JStr (s : string)
| JArr (items : list json)
| JObj (items : list (string * json)).

(** Python truthiness of a decoded value. *)
Definition truthy (v : json) : bool :=
  match v with
  | JNull => false
  | JBool b => b
  | JNum q => negb (Qeq_bool q 0)
  | JStr s => negb (String.eqb s "")
  | JArr items => match items with [] => false | _ => true end
  | JObj items => match items with [] => false | _ => true end
  end.

(** [d.get(key)]: the value, [None] when the key is absent. *)
Fixpoint dict_get (items : list (string * json)) (key : string) : json :=
  match items with
  | [] => JNull
  | (k, v) :: rest => if String.eqb k key then v else dict_get rest key
  end.

(** ** The coordinating thread's state *)

(** A [Future] is named by the number of submissions made before it. *)
Definition handle : Type := nat.

(** The tuple [(msg, time.time())] stored for an in-flight record. *)
Definition task : Type := (string * Q)%type.
Definition TUPLE_MSG (t : task) : string := fst t.
Definition TUPLE_STARTTIME (t : task) : Q := snd t.

(** The [futures] dict, as its items in insertion order. *)
Definition registry : Type := list (handle * task).

(** [d.pop(k)]: the value and the dict without the key; [None] stands for
    [KeyError]. *)
Fixpoint dict_pop (d : registry) (k : handle) : option (task * registry) :=
  match d with
  | [] => None
  | (k', v) :: rest =>
      if Nat.eqb k' k then Some (v, rest)
      else match dict_pop rest k with
           | Some (w, rest') => Some (w, (k', v) :: rest')
           | None => None
           end
  end.

(** [d[k] = v]: replaces the value of a present key in place, appends a new
    key. *)
Fixpoint dict_set (d : registry) (k : handle) (v : task) : registry :=
  match d with
  | [] => [(k, v)]
  | (k', w) :: rest =>
      if Nat.eqb k' k then (k', v) :: rest
      else (k', w) :: dict_set rest k v
  end.

Record State : Type := mkState {
  futures : registry;
  empty_pause : Q;
  messages : Z;
  prevTime : Q;
  logCheckTime : Q;
  submitted : nat  (* futures created by [executor.submit] so far *)
}.

Definition set_futures (d : registry) (st : State) : State :=
  mkState d (empty_pause st) (messages st) (prevTime st) (logCheckTime st)
          (submitted st).
Definition set_empty_pause (t : Q) (st : State) : State :=
  mkState (futures st) t (messages st) (prevTime st) (logCheckTime st)
          (submitted st).
Definition set_messages (n : Z) (st : State) : State :=
  mkState (futures st) (empty_pause st) n (prevTime st) (logCheckTime st)
          (submitted st).
Definition set_prevTime (t : Q) (st : State) : State :=
  mkState (futures st) (empty_pause st) (messages st) t (logCheckTime st)
          (submitted st).
Definition set_logCheckTime (t : Q) (st : State) : State :=
  mkState (futures st) (empty_pause st) (messages st) (prevTime st) t
          (submitted st).
Definition set_submitted (n : nat) (st : State) : State :=
  mkState (futures st) (empty_pause st) (messages st) (prevTime st)
          (logCheckTime st) n.

(** The state at line 122, the clock having read [start] at line 107. *)
Definition initial_state (start : Q) : State :=
  mkState [] 0%Q 0 start start 0%nat.

(** ** Configuration, observable effects and inputs *)

Record Config : Type := mkConfig {
  env_LONG_RECORD : option string;  (* LONG_RECORD *)
  env_SLEEP_TIME : option Z;        (* SENZING_REDO_SLEEP_TIME_IN_SECONDS *)
  max_workers : nat;                (* executor._max_workers *)
  info : bool                       (* args.info *)
}.

(** One printed line, with the values its f-string interpolates. *)
Inductive line : Type :=
| Threads (n : nat)
| Result (result : string)
| TransliterationFailure (msg : string)
| HitRetryTimeout
| Processed (count speed : Z)
| Stats (response : string)
| LongRecord (minutes : Q) (id : string)
| AllStuck (n : nat)
| NoRedo (pause : Z)
| StillProcessing (minutes : Q) (id : string)
| WorkerError (err : exn) (msg : string)  (* line 54 *)
| ErrorLine (err : exn)       (* line 226: type name and text *)
| ShuttingDown (err : exn)    (* line 232 *)
| ErrorText (err : exn)       (* line 249: text only *)
| Traceback.

Inductive event : Type :=
| Stdout (l : line)
| Stderr (l : line)
| Sleep (seconds : Q)
| GetRedoRecord
| Submit (fut : handle) (msg : string) (with_info : bool)
| ExecutorShutdown.

(** The outcome [fut.result()] has for a completed future. *)
Inductive task_result : Type :=
| Returned (result : option string)
| Raised (err : exn).

(** [process_msg(engine, msg, info)], run by a worker: what it writes and
    the outcome its future gets.  [engine] answers [processWithInfo] when
    [info] is set and [process] otherwise, with the response or the
    exception; a failure is written to the standard error and raised
    again. *)
Definition process_msg (engine : string -> bool -> exn + string)
           (msg : string) (info : bool) : list event * task_result :=
  match engine msg info with
  | inr response => ([], Returned (if info then Some response else None))
  | inl err => ([Stderr (WorkerError err msg)], Raised err)
  end.

(** One pass through the [try] block of the fill loop: a failure of
    [getRedoRecord], [decode] or [submit]; an empty response, with the clock
    reading of line 218; a record, with the clock reading of line 223. *)
Inductive fetch : Type :=
| FetchRaises (err : exn)
| FetchEmpty (t : Q)
| FetchRecord (msg : string) (t : Q).

(** What one iteration of [while True] obtains from outside.  [g2.stats]
    and [governor.govern] are taken to return a value; the calls the source
    guards with [try] ([fut.result()], the fetch and the submission) may
    raise. *)
Record IterInput : Type := mkIterInput {
  nowTime : Q;                     (* line 126 *)
  wait_done : list handle;         (* [done], in iteration order *)
  fut_result : handle -> task_result;
  stats : string;                  (* [g2.stats], decoded *)
  fut_done : handle -> bool;       (* [fut.done()] during the scan *)
  govern : Q;                      (* [governor.govern()] *)
  pause_clock : Q;                 (* line 204 *)
  redo : nat -> fetch              (* k-th pass of the fill loop *)
}.

(** What the [except] handler of the loop obtains from outside. *)
Record ShutdownInput : Type := mkShutdownInput {
  shutdown_clock : Q;              (* line 237 *)
  shutdown_done : handle -> bool   (* [fut.done()], line 239 *)
}.

(** ** A monad for the loop body: state, trace and control *)

(** How a block of statements ends: it falls through, executes [continue],
    raises an [Exception], raises [SystemExit] through [exit], or (in the
    model only) exhausts the fuel of the fill loop. *)
Inductive ctl (A : Type) : Type :=
| Normal (a : A)
| Continue
| Raise (err : exn)
| Exit (status : Z)
| OutOfFuel.
Arguments Normal {A} a.
Arguments Continue {A}.
Arguments Raise {A} err.
Arguments Exit {A} status.
Arguments OutOfFuel {A}.

Definition M (A : Type) : Type := State -> ctl A * State * list event.

Definition ret {A} (a : A) : M A := fun st => (Normal a, st, []).

Definition bind {A B} (m : M A) (k : A -> M B) : M B :=
  fun st =>
    match m st with
    | (Normal a, st1, t1) =>
        let '(c, st2, t2) := k a st1 in (c, st2, t1 ++ t2)
    | (Continue, st1, t1) => (Continue, st1, t1)
    | (Raise e, st1, t1) => (Raise e, st1, t1)
    | (Exit n, st1, t1) => (Exit n, st1, t1)
    | (OutOfFuel, st1, t1) => (OutOfFuel, st1, t1)
    end.

Notation "x <- m ;; k" := (bind m (fun x => k))
  (at level 61, m at next level, right associativity).
Notation "m ;; k" := (bind m (fun _ => k))
  (at level 61, right associativity).

Definition get : M State := fun st => (Normal st, st, []).
Definition modify (f : State -> State) : M unit :=
  fun st => (Normal tt, f st, []).
Definition emit (e : event) : M unit := fun st => (Normal tt, st, [e]).
Definition continue {A} : M A := fun st => (Continue, st, []).
Definition raise {A} (e : exn) : M A := fun st => (Raise e, st, []).
Definition exit {A} (status : Z) : M A := fun st => (Exit status, st, []).
Definition out_of_fuel {A} : M A := fun st => (OutOfFuel, st, []).

Definition lift {A} (r : exn + A) : M A :=
  match r with
  | inl e => raise e
  | inr a => ret a
  end.

Definition print (l : line) : M unit := emit (Stdout l).
Definition print_err (l : line) : M unit := emit (Stderr l).
Definition sleep (seconds : Q) : M unit := emit (Sleep seconds).

Definition pass : M unit := ret tt.

(** [for x in l: body x] *)
Fixpoint for_each {A} (l : list A) (body : A -> M unit) : M unit :=
  match l with
  | [] => pass
  | x :: rest => body x ;; for_each rest body
  end.

Definition ctl_of {A} (r : ctl A * State * list event) : ctl A := fst (fst r).
Definition state_of {A} (r : ctl A * State * list event) : State :=
  snd (fst r).
Definition trace_of {A} (r : ctl A * State * list event) : list event :=
  snd r.

(** ** Sample data

    A pool of two workers with nothing set in the environment, and the
    inputs of a few turns, on which the statements below are tried. *)

(** [str()] on the sample values: none of them needs it. *)
Definition sample_str (v : json) : string := "<value>".

(** The decoding of the sample messages: "repair" is a repair message,
    "garbage" is no JSON, any other text is a record of data source TEST
    whose record id is the text. *)
Definition sample_loads (msg : string) : option json :=
  if String.eqb msg "garbage" then None
  else if String.eqb msg "repair" then
    Some (JObj [("UMF_PROC"%string,
                 JObj [("NAME"%string, JStr "REPAIR_ENTITY");
                       ("PARAMS"%string,
                        JArr [JObj [("PARAM"%string,
                                     JObj [("NAME"%string, JStr "ENTITY_ID");
                                           ("VALUE"%string, JStr "42")])]])])])
  else Some (JObj [("DATA_SOURCE"%string, JStr "TEST");
                   ("RECORD_ID"%string, JStr msg)]).

Definition sample_cfg : Config := mkConfig None None 2 false.

(** A turn at clock reading [now] in which nothing has completed, the
    governor answers [decision] and the engine has no redo record. *)
Definition idle_turn (now decision : Q) : IterInput :=
  mkIterInput now [] (fun _ => Returned None) "stats" (fun _ => false)
              decision now (fun _ => FetchEmpty now).

(** A turn at clock reading [now] in which the futures [done] have
    completed with the outcomes [outcome], and the engine has no redo
    record. *)
Definition harvest_turn (now : Q) (done : list handle)
           (outcome : handle -> task_result) : IterInput :=
  mkIterInput now done outcome "stats" (fun _ => false) 0 now
              (fun _ => FetchEmpty now).

(** A turn at clock reading [now] in which the engine hands out the records
    "rec1" and "rec2". *)
Definition fetch_turn (now : Q) : IterInput :=
  mkIterInput now [] (fun _ => Returned None) "stats" (fun _ => false) 0 now
              (fun k => match k with
                        | O => FetchRecord "rec1" now
                        | _ => FetchRecord "rec2" now
                        end).

(** A turn at clock reading [now] in which every future reports itself
    done when the scan asks. *)
Definition settled_turn (now : Q) : IterInput :=
  mkIterInput now [] (fun _ => Returned None) "stats" (fun _ => true) 0 now
              (fun _ => FetchEmpty now).

(** The handler's inputs at clock reading [now]: no future is done, every
    future is done. *)
Definition all_running (now : Q) : ShutdownInput :=
  mkShutdownInput now (fun _ => false).
Definition all_done (now : Q) : ShutdownInput :=
  mkShutdownInput now (fun _ => true).

(** Five records in flight since clock reading 0, nothing counted yet. *)
Definition five_in_flight : State :=
  mkState [(0%nat, ("rec1"%string, 0%Q)); (1%nat, ("rec2"%string, 0%Q));
           (2%nat, ("rec3"%string, 0%Q)); (3%nat, ("rec4"%string, 0%Q));
           (4%nat, ("rec5"%string, 0%Q))]
          0%Q 0 0%Q 0%Q 5%nat.

(** Two records in flight since clock reading 0. *)
Definition two_in_flight : State :=
  mkState [(0%nat, ("rec1"%string, 0%Q)); (1%nat, ("rec2"%string, 0%Q))]
          0%Q 0 0%Q 0%Q 2%nat.

(** One record in flight since clock reading 0, one since 900. *)
Definition old_and_new : registry :=
  [(0%nat, ("rec1"%string, 0%Q)); (1%nat, ("rec2"%string, 900%Q))].

(** A repair message in flight since clock reading 0. *)
Definition repair_in_flight : State :=
  mkState [(0%nat, ("repair"%string, 0%Q))] 0%Q 0 0%Q 0%Q 1%nat.

(** A thousand completions counted, the last report at clock reading 0. *)
Definition thousand_done : State := mkState [] 0%Q 1000 0%Q 0%Q 1000%nat.


(** Record #3 fails as bad input with code [code]; the others succeed. *)
Definition third_is_bad (code : Z) (fut : handle) : task_result :=
  if Nat.eqb fut 2 then Raised (G2BadInputException code) else Returned None.

(** Record #3 fails with a retry timeout; the others succeed. *)
Definition third_times_out (fut : handle) : task_result :=
  if Nat.eqb fut 2 then Raised G2RetryTimeoutExceeded else Returned None.

(** The first future fails with an exception of no class the loop catches. *)
Definition first_is_fatal (fut : handle) : task_result :=
  if Nat.eqb fut 0 then Raised (OtherException "G2Exception")
  else Returned None.

(** A pool of three workers, and a turn at clock reading [now] in which the
    engine hands out "rec1", "rec2" and then a repair message. *)
Definition three_workers : Config := mkConfig None None 3 false.
Definition repair_fetch_turn (now : Q) : IterInput :=
  mkIterInput now [] (fun _ => Returned None) "stats" (fun _ => false) 0 now
              (fun k => match k with
                        | O => FetchRecord "rec1" now
                        | S O => FetchRecord "rec2" now
                        | _ => FetchRecord "repair" now
                        end).

(** The pool of two workers with LONG_RECORD set to 600 in the
    environment. *)
Definition long_record_set : Config :=
  mkConfig (Some "600"%string) None 2 false.


(** Every future completes with a result. *)
Definition all_succeed (fut : handle) : task_result := Returned None.

(** An engine that rejects the message "rec3" as bad input with code
    [code] and processes any other. *)
Definition third_rejected (code : Z) (msg : string) (with_info : bool)
  : exn + string :=
  if String.eqb msg "rec3" then inl (G2BadInputException code)
  else inr EmptyString.

(** An engine that times out on the message "rec3" and processes any
    other. *)
Definition third_timed_out (msg : string) (with_info : bool) : exn + string :=
  if String.eqb msg "rec3" then inl G2RetryTimeoutExceeded
  else inr EmptyString.

Section Redoer.

(** [str()] of a decoded value that is not itself a string, as an f-string
    interpolates it. *)
Variable py_str : json -> string.

(** [orjson.loads]; [None] stands for [JSONDecodeError]. *)
Variable orjson_loads : string -> option json.

Definition fstring_value (v : json) : string :=
  match v with
  | JStr s => s
  | _ => py_str v
  end.

(** [loggingID(rec)].  The names [PARAMS], [PARAM] and [VALUE] of the repair
    branch are bound nowhere in the module, so evaluating the subscript
    [umf_proc[PARAMS]] raises [NameError]. *)
Definition loggingID (rec : json) : exn + string :=
  match rec with
  | JObj items =>
      let dsrc := dict_get items "DATA_SOURCE" in
      let rec_id := dict_get items "RECORD_ID" in
      if truthy dsrc && truthy rec_id then
        inr (fstring_value dsrc ++ " : " ++ fstring_value rec_id)%string
      else
        let umf_proc := dict_get items "UMF_PROC" in
        if truthy umf_proc then inl (NameError "PARAMS")
        else inr "UNKNOWN RECORD"%string
  | _ => inl AttributeError
  end.

(** [loggingID(orjson.loads(msg))] as both diagnostics compute it. *)
Definition record_id (msg : string) : exn + string :=
  match orjson_loads msg with
  | None => inl JSONDecodeError
  | Some rec => loggingID rec
  end.

(** ** The main loop *)

(** Environment, pool size and command line, fixed at start-up. *)
Variable cfg : Config.

Definition long_record : pyval := LONG_RECORD (env_LONG_RECORD cfg).
Definition empty_pause_time : Z := EMPTY_PAUSE_TIME (env_SLEEP_TIME cfg).

(** [msg = futures.pop(fut)] *)
Definition pop_future (fut : handle) : M task :=
  st <- get ;;
  match dict_pop (futures st) fut with
  | Some (msg, rest) => modify (set_futures rest) ;; ret msg
  | None => raise KeyError
  end.

(** Lines 139-152: the [try] around [fut.result()] and its two handlers.  An
    exception of any other class propagates. *)
Definition handle_result (r : task_result) (msg : task) : M unit :=
  match r with
  | Returned result =>
      match result with
      | Some text => if String.eqb text "" then pass else print (Result text)
      | None => pass
      end
  | Raised (G2BadInputException code) =>
      if code =? 7426 then print (TransliterationFailure (TUPLE_MSG msg))
      else pass
  | Raised G2RetryTimeoutExceeded => print HitRetryTimeout
  | Raised err => raise err
  end.

(** Lines 156-164: the rate statistics. *)
Definition rate_stats (now : Q) : M unit :=
  st <- get ;;
  if messages st mod INTERVAL =? 0 then
    let diff := (now - prevTime st)%Q in
    let speed :=
      if Qltb 0 diff then py_int (inject_Z INTERVAL / diff)%Q else -1 in
    print (Processed (messages st) speed) ;;
    modify (set_prevTime now)
  else pass.

(** Lines 138-164: the body of [for fut in done]. *)
Definition harvest (inp : IterInput) (fut : handle) : M unit :=
  msg <- pop_future fut ;;
  handle_result (fut_result inp fut) msg ;;
  modify (fun st => set_messages (messages st + 1) st) ;;
  rate_stats (nowTime inp).

(** Lines 178-185: the test of one in-flight task; the result is the new
    value of [numStuck]. *)
Definition stuck_test (inp : IterInput) (fut : handle) (msg : task)
           (numStuck : nat) : M nat :=
  if negb (fut_done inp fut) then
    let duration := (nowTime inp - TUPLE_STARTTIME msg)%Q in
    long <- lift (py_float_gt duration (py_mul long_record 2)) ;;
    if long : bool then
      id <- lift (record_id (TUPLE_MSG msg)) ;;
      print (LongRecord (duration / 60)%Q id) ;;
      ret (S numStuck)
    else ret numStuck
  else ret numStuck.

(** Lines 177-189: the scan over [futures.items()], [numStuck] being the
    count so far. *)
Fixpoint stuck_scan (inp : IterInput) (items : registry) (numStuck : nat)
  : M unit :=
  match items with
  | [] => pass
  | (fut, msg) :: rest =>
      numStuck' <- stuck_test inp fut msg numStuck ;;
      (if (max_workers cfg <=? numStuck')%nat
       then print (AllStuck (max_workers cfg)) else pass) ;;
      stuck_scan inp rest numStuck'
  end.

(** Lines 166-189: the periodic statistics and long-record report. *)
Definition long_record_check (inp : IterInput) : M unit :=
  half <- lift (py_truediv long_record 2) ;;
  st <- get ;;
  if Qltb (logCheckTime st + half)%Q (nowTime inp) then
    modify (set_logCheckTime (nowTime inp)) ;;
    print (Stats (stats inp)) ;;
    stuck_scan inp (futures st) 0%nat
  else pass.

(** Lines 127-189: everything under [if futures:]. *)
Definition drain (inp : IterInput) : M unit :=
  st <- get ;;
  match futures st with
  | [] => pass
  | _ :: _ =>
      for_each (wait_done inp) (harvest inp) ;;
      long_record_check inp
  end.

(** Lines 221-224: [futures[executor.submit(...)] = (msg, time.time())]. *)
Definition submit (msg : string) (t : Q) : M unit :=
  st <- get ;;
  let fut := submitted st in
  emit (Submit fut msg (info cfg)) ;;
  modify (fun st => set_submitted (S fut)
                      (set_futures (dict_set (futures st) fut (msg, t)) st)).

(** Lines 209-227: the fill loop, [k] passes having been made.  [fuel]
    bounds the passes still allowed. *)
Fixpoint fill_loop (inp : IterInput) (fuel : nat) (k : nat) : M unit :=
  st <- get ;;
  if (List.length (futures st) <? max_workers cfg)%nat then
    match fuel with
    | O => out_of_fuel
    | S fuel' =>
        emit GetRedoRecord ;;
        match redo inp k with
        | FetchRaises err => print_err (ErrorLine err) ;; raise err
        | FetchEmpty t =>
            print (NoRedo empty_pause_time) ;;
            modify (set_empty_pause (t + inject_Z empty_pause_time)%Q)
        | FetchRecord msg t =>
            submit msg t ;;
            fill_loop inp fuel' (S k)
        end
    end
  else pass.

(** Lines 203-227: the empty-pause test, then the fill loop. *)
Definition pause_and_fill (inp : IterInput) : M unit :=
  st <- get ;;
  (if negb (Qeq_bool (empty_pause st) 0) then
     if Qltb (pause_clock inp) (empty_pause st) then sleep 1 ;; continue
     else modify (set_empty_pause 0)
   else pass) ;;
  st <- get ;;
  fill_loop inp (max_workers cfg - List.length (futures st))%nat 0%nat.

(** Lines 191-227: the governor's decision, then the rest of the body. *)
Definition govern_and_fill (inp : IterInput) : M unit :=
  let pauseSeconds := govern inp in
  st <- get ;;
  if Qltb pauseSeconds 0 then sleep 1 ;; continue
  else if (max_workers cfg <=? List.length (futures st))%nat then
    sleep 1 ;; continue
  else
    (if Qltb 0 pauseSeconds then sleep pauseSeconds else pass) ;;
    pause_and_fill inp.

(** Lines 126-227: the body of [while True]. *)
Definition iteration (inp : IterInput) : M unit :=
  drain inp ;;
  govern_and_fill inp.

(** One turn of [while True]: [continue] starts the next turn like falling
    off the end of the body does. *)
Definition turn (inp : IterInput) : M unit :=
  fun st =>
    match iteration inp st with
    | (Continue, st1, t1) => (Normal tt, st1, t1)
    | r => r
    end.

(** The loop run on the inputs of its first turns.  [Normal]: it is still
    running once these are used up. *)
Definition main_loop (inps : list IterInput) : M unit :=
  for_each inps turn.

(** Lines 239-244: the report of one record still in flight. *)
Definition still_report (sd : ShutdownInput) (fut : handle) (msg : task)
  : M unit :=
  if negb (shutdown_done sd fut) then
    let duration := (shutdown_clock sd - TUPLE_STARTTIME msg)%Q in
    id <- lift (record_id (TUPLE_MSG msg)) ;;
    print (StillProcessing (duration / 60)%Q id)
  else pass.

(** Lines 238-244: the loop over [futures.items()] in the handler. *)
Fixpoint still_processing (sd : ShutdownInput) (items : registry) : M unit :=
  match items with
  | [] => pass
  | (fut, msg) :: rest =>
      still_report sd fut msg ;;
      still_processing sd rest
  end.

(** Lines 231-246: the handler of the loop's [except Exception as err]. *)
Definition shutdown_handler (err : exn) (sd : ShutdownInput) : M unit :=
  print_err (ShuttingDown err) ;;
  print_err Traceback ;;
  st <- get ;;
  still_processing sd (futures st) ;;
  emit ExecutorShutdown ;;
  exit (-1).

(** Lines 123-246: the loop inside its [try]. *)
Definition guarded_loop (inps : list IterInput) (sd : ShutdownInput)
  : M unit :=
  fun st =>
    match main_loop inps st with
    | (Raise err, st1, t1) =>
        let '(c, st2, t2) := shutdown_handler err sd st1 in
        (c, st2, t1 ++ t2)
    | r => r
    end.

(** Lines 119-246: the [with] block.  Leaving it, by an exception or by
    [SystemExit], makes the executor's [__exit__] call [shutdown]. *)
Definition with_executor (body : M unit) : M unit :=
  fun st =>
    match body st with
    | (Raise err, st1, t1) => (Raise err, st1, t1 ++ [ExecutorShutdown])
    | (Exit n, st1, t1) => (Exit n, st1, t1 ++ [ExecutorShutdown])
    | r => r
    end.

(** The program from line 107 on, inside the outer [try] whose handler
    (lines 248-251) prints the error and exits with -1. *)
Definition program (start : Q) (inps : list IterInput) (sd : ShutdownInput)
  : ctl unit * State * list event :=
  let body :=
    with_executor (print (Threads (max_workers cfg)) ;; guarded_loop inps sd)
  in
  match body (initial_state start) with
  | (Raise err, st1, t1) =>
      (Exit (-1), st1, t1 ++ [Stderr (ErrorText err); Stderr Traceback])
  | r => r
  end.

(** ** Notions used in the statements *)

(** A property of the state that a computation never breaks. *)
Definition preserves {A} (P : State -> Prop) (m : M A) : Prop :=
  forall st, P st -> P (state_of (m st)).

(** The registry holds at most [n] tasks. *)
Definition within (n : nat) (st : State) : Prop :=
  (List.length (futures st) <= n)%nat.

(** The outcomes the loop survives: a result, or an exception of one of the
    two classes lines 145 and 151 catch. *)
Definition recoverable (r : task_result) : bool :=
  match r with
  | Returned _ => true
  | Raised (G2BadInputException _) => true
  | Raised G2RetryTimeoutExceeded => true
  | Raised _ => false
  end.

(** The state in which the rate statistics of a completion are computed. *)
Definition counted (rest : registry) (st : State) : State :=
  set_messages (messages st + 1) (set_futures rest st).

Definition age (now : Q) (msg : task) : Q := (now - TUPLE_STARTTIME msg)%Q.

(** Not done at the scan, and older than twice [n] seconds. *)
Definition overdue (n : Z) (inp : IterInput) (item : handle * task) : bool :=
  negb (fut_done inp (fst item))
  && Qltb (inject_Z (n * 2)) (age (nowTime inp) (snd item)).

Definition id_or_empty (msg : task) : string :=
  match record_id (TUPLE_MSG msg) with
  | inr id => id
  | inl _ => EmptyString
  end.

(** The long-record line of a task: its age in minutes and its identifier. *)
Definition long_line (inp : IterInput) (item : handle * task) : event :=
  Stdout (LongRecord (age (nowTime inp) (snd item) / 60)%Q
                     (id_or_empty (snd item))).

Definition is_long_line (e : event) : bool :=
  match e with
  | Stdout (LongRecord _ _) => true
  | _ => false
  end.

Definition is_stdout (e : event) : bool :=
  match e with
  | Stdout _ => true
  | _ => false
  end.

(** Not done when the handler looks. *)
Definition in_flight (sd : ShutdownInput) (item : handle * task) : bool :=
  negb (shutdown_done sd (fst item)).

(** The still-processing line of a task: its age in minutes and its
    identifier. *)
Definition still_line (sd : ShutdownInput) (item : handle * task) : event :=
  Stdout (StillProcessing (age (shutdown_clock sd) (snd item) / 60)%Q
                          (id_or_empty (snd item))).

(** The computation never stops for want of fuel. *)
Definition fuelled {A} (m : M A) : Prop :=
  forall st, ctl_of (m st) <> OutOfFuel.

(** Every future of the registry was created by an earlier [submit]. *)
Definition fresh (st : State) : Prop :=
  forall key, In key (map fst (futures st)) -> (key < submitted st)%nat.

(** How a block ended, whatever its type. *)
Inductive ending : Type :=
| EndsNormal | EndsContinue | EndsRaise | EndsExit | EndsOutOfFuel.

Definition ending_of {A} (c : ctl A) : ending :=
  match c with
  | Normal _ => EndsNormal
  | Continue => EndsContinue
  | Raise _ => EndsRaise
  | Exit _ => EndsExit
  | OutOfFuel => EndsOutOfFuel
  end.

(** The computation never ends in the way [e]. *)
Definition never {A} (e : ending) (m : M A) : Prop :=
  forall st, ending_of (ctl_of (m st)) <> e.

(** A property of the state that no assignment of the loop breaks, the
    counter only ever being incremented. *)
Definition stable (P : State -> Prop) : Prop :=
  (forall d s, P s -> P (set_futures d s)) /\
  (forall t s, P s -> P (set_empty_pause t s)) /\
  (forall t s, P s -> P (set_prevTime t s)) /\
  (forall t s, P s -> P (set_logCheckTime t s)) /\
  (forall n s, P s -> P (set_submitted n s)) /\
  (forall s, P s -> P (set_messages (messages s + 1) s)).

(** The completions counted plus the tasks in flight. *)
Definition in_hand (st : State) : Z :=
  messages st + Z.of_nat (List.length (futures st)).

(** Every future submitted so far is counted or in flight. *)
Definition balanced (st : State) : Prop :=
  Z.of_nat (submitted st) = in_hand st.

(** At most one future submitted so far is neither counted nor in flight. *)
Definition nearly_balanced (st : State) : Prop :=
  in_hand st <= Z.of_nat (submitted st) <= in_hand st + 1.

(** [I] holds again wherever the computation falls through or continues,
    and [A] holds however it ends. *)
Definition guards {X} (I A : State -> Prop) (m : M X) : Prop :=
  forall st,
    I st ->
    A (state_of (m st)) /\
    match ctl_of (m st) with
    | Normal _ | Continue => I (state_of (m st))
    | _ => True
    end.

Definition is_submit (e : event) : bool :=
  match e with
  | Submit _ _ _ => true
  | _ => false
  end.

(** The submissions a trace records. *)
Definition submit_count (t : list event) : nat :=
  List.length (filter is_submit t).

(** The executor's count of futures grows by the submissions recorded. *)
Definition tallies {X} (m : M X) : Prop :=
  forall st,
    submitted (state_of (m st))
    = (submit_count (trace_of (m st)) + submitted st)%nat.

(** The records handed out by the passes of the fill loop from pass [k] on,
    at most [n] of them, up to the first pass that hands out none. *)
Fixpoint fetched (inp : IterInput) (n k : nat) : list task :=
  match n with
  | O => []
  | S n' =>
      match redo inp k with
      | FetchRecord msg t => (msg, t) :: fetched inp n' (S k)
      | _ => []
      end
  end.

(** The registry entries of tasks submitted in a row, the first of them
    getting the future [first]. *)
Definition enlist (first : nat) (recs : list task) : registry :=
  combine (seq first (List.length recs)) recs.

(** The futures and messages of the submissions a trace records. *)
Definition submissions (t : list event) : list (handle * string) :=
  flat_map (fun e => match e with
                     | Submit fut msg _ => [(fut, msg)]
                     | _ => []
                     end) t.

Definition is_all_stuck (e : event) : bool :=
  match e with
  | Stdout (AllStuck _) => true
  | _ => false
  end.

(** Every task scanned is overdue and, with the [n] counted before, they
    are as many as the pool has workers. *)
Definition all_slots_stuck (inp : IterInput) (n : nat) (items : registry)
  : bool :=
  match items with
  | [] => false
  | _ :: _ =>
      forallb (overdue 300 inp) items
      && Nat.eqb (n + List.length items) (max_workers cfg)
  end.

(** The future of the entry is not among [done]. *)
Definition not_among (done : list handle) (item : handle * task) : bool :=
  negb (existsb (Nat.eqb (fst item)) done).

(** The futures of the registry are in the order of their submission, each
    once, and all known to the executor. *)
Definition in_submission_order (st : State) : Prop :=
  StronglySorted lt (map fst (futures st)) /\ fresh st.

(** The outcome the loop finds in the future [fut] is the one the worker's
    [process_msg] produced from [engine] for the message stored with the
    future and the command line's [info]: line 221 submits
    [process_msg, g2, msg, args.info] and stores [msg] under the future. *)
Definition worked_by (engine : string -> bool -> exn + string)
           (inp : IterInput) (fut : handle) (entry : task) : Prop :=
  fut_result inp fut = snd (process_msg engine (TUPLE_MSG entry) (info cfg)).

(** ** Basic facts *)

Lemma Qltb_lt (x y : Q) : Qltb x y = true <-> (x < y)%Q.
Proof.
  unfold Qltb. rewrite Qlt_alt.
  destruct (x ?= y)%Q; split; congruence.
Qed.

Lemma Qltb_ge (x y : Q) : Qltb x y = false <-> (y <= x)%Q.
Proof.
  pose proof (Qltb_lt x y) as H. split.
  - intros E. apply Qnot_lt_le. intros L. apply H in L. congruence.
  - intros L. destruct (Qltb x y); [|reflexivity].
    exfalso. apply (Qle_not_lt _ _ L). apply H. reflexivity.
Qed.

Lemma bind_get {B} (k : State -> M B) (st : State) :
  bind get k st = k st st.
Proof. unfold bind, get. destruct (k st st) as [[c s] t]. reflexivity. Qed.

Lemma bind_ret {A B} (a : A) (k : A -> M B) (st : State) :
  bind (ret a) k st = k a st.
Proof. unfold bind, ret. destruct (k a st) as [[c s] t]. reflexivity. Qed.

Lemma bind_modify {B} (f : State -> State) (k : unit -> M B) (st : State) :
  bind (modify f) k st = k tt (f st).
Proof.
  unfold bind, modify. destruct (k tt (f st)) as [[c s] t]. reflexivity.
Qed.

Lemma bind_emit {B} (e : event) (k : unit -> M B) (st : State) :
  bind (emit e) k st =
  (ctl_of (k tt st), state_of (k tt st), e :: trace_of (k tt st)).
Proof.
  unfold bind, emit. destruct (k tt st) as [[c s] t]. reflexivity.
Qed.

Lemma bind_raise {A B} (e : exn) (k : A -> M B) (st : State) :
  bind (raise e) k st = (Raise e, st, []).
Proof. reflexivity. Qed.

Lemma bind_continue {A B} (k : A -> M B) (st : State) :
  bind continue k st = (Continue, st, []).
Proof. reflexivity. Qed.

(** [bind] in terms of the projections of its two parts. *)
Lemma bind_normal {A B} (m : M A) (k : A -> M B) (st : State) (a : A) :
  ctl_of (m st) = Normal a ->
  bind m k st =
  (ctl_of (k a (state_of (m st))), state_of (k a (state_of (m st))),
   trace_of (m st) ++ trace_of (k a (state_of (m st)))).
Proof.
  unfold bind, ctl_of, state_of, trace_of.
  destruct (m st) as [[c s] t]; simpl. intros ->.
  destruct (k a s) as [[c' s'] t']. reflexivity.
Qed.

Lemma bind_abrupt {A B} (m : M A) (k : A -> M B) (st : State) :
  (forall a, ctl_of (m st) <> Normal a) ->
  state_of (bind m k st) = state_of (m st) /\
  trace_of (bind m k st) = trace_of (m st).
Proof.
  unfold bind, ctl_of, state_of, trace_of.
  destruct (m st) as [[c s] t]; simpl. intros H.
  destruct c; try (split; reflexivity). exfalso. apply (H a). reflexivity.
Qed.

Lemma preserves_bind {A B} (P : State -> Prop) (m : M A) (k : A -> M B) :
  preserves P m -> (forall a, preserves P (k a)) -> preserves P (bind m k).
Proof.
  intros Hm Hk st HP. specialize (Hm st HP).
  unfold bind, state_of in *. destruct (m st) as [[c s1] t1]; simpl in Hm.
  destruct c; simpl; auto.
  specialize (Hk a s1 Hm). unfold state_of in Hk.
  destruct (k a s1) as [[c2 s2] t2]. exact Hk.
Qed.

Lemma preserves_const {A} (P : State -> Prop) (m : M A) :
  (forall st, state_of (m st) = st) -> preserves P m.
Proof. intros H st HP. rewrite H. exact HP. Qed.

Lemma preserves_for_each {A} (P : State -> Prop) (l : list A)
      (body : A -> M unit) :
  (forall x, preserves P (body x)) -> preserves P (for_each l body).
Proof.
  intros H. induction l as [|x l IH]; simpl.
  - intros st HP. exact HP.
  - apply preserves_bind; auto.
Qed.

Lemma bind_run {A B} (m : M A) (k : A -> M B) (st st1 : State) (a : A)
      (t1 : list event) :
  m st = (Normal a, st1, t1) ->
  bind m k st =
  (ctl_of (k a st1), state_of (k a st1), t1 ++ trace_of (k a st1)).
Proof.
  unfold bind, ctl_of, state_of, trace_of. intros ->.
  destruct (k a st1) as [[c s] t]. reflexivity.
Qed.

Ltac msimp :=
  unfold print, print_err, sleep, pass;
  repeat (rewrite ?bind_get, ?bind_ret, ?bind_modify, ?bind_emit,
            ?bind_raise, ?bind_continue;
          cbn [state_of ctl_of trace_of fst snd]).

Lemma state_of_bind_emit {B} (e : event) (k : unit -> M B) (st : State) :
  state_of (bind (emit e) k st) = state_of (k tt st).
Proof. rewrite bind_emit. reflexivity. Qed.

Lemma preserves_get (P : State -> Prop) : preserves P get.
Proof. apply preserves_const. reflexivity. Qed.

Lemma preserves_ret {A} (P : State -> Prop) (a : A) : preserves P (ret a).
Proof. apply preserves_const. reflexivity. Qed.

Lemma preserves_emit (P : State -> Prop) (e : event) : preserves P (emit e).
Proof. apply preserves_const. reflexivity. Qed.

Lemma preserves_raise {A} (P : State -> Prop) (e : exn) :
  preserves P (@raise A e).
Proof. apply preserves_const. reflexivity. Qed.

Lemma preserves_continue {A} (P : State -> Prop) : preserves P (@continue A).
Proof. apply preserves_const. reflexivity. Qed.

Lemma preserves_exit {A} (P : State -> Prop) (n : Z) :
  preserves P (@exit A n).
Proof. apply preserves_const. reflexivity. Qed.

Lemma preserves_out_of_fuel {A} (P : State -> Prop) :
  preserves P (@out_of_fuel A).
Proof. apply preserves_const. reflexivity. Qed.

Lemma preserves_lift {A} (P : State -> Prop) (r : exn + A) :
  preserves P (lift r).
Proof. destruct r; apply preserves_const; reflexivity. Qed.

Lemma preserves_modify (P : State -> Prop) (f : State -> State) :
  (forall st, P st -> P (f st)) -> preserves P (modify f).
Proof. intros H st HP. apply H. exact HP. Qed.

Lemma preserves_bind_get {B} (P : State -> Prop) (k : State -> M B) :
  (forall st, P st -> P (state_of (k st st))) -> preserves P (bind get k).
Proof. intros H st HP. rewrite bind_get. apply H. exact HP. Qed.

Create HintDb frame.
#[local] Hint Resolve preserves_get preserves_ret preserves_emit
  preserves_raise preserves_continue preserves_exit preserves_out_of_fuel
  preserves_lift : frame.
#[local] Hint Extern 1 (preserves _ pass) => apply preserves_ret : frame.
#[local] Hint Extern 1 (preserves _ (print _)) => apply preserves_emit : frame.
#[local] Hint Extern 1 (preserves _ (print_err _)) =>
  apply preserves_emit : frame.
#[local] Hint Extern 1 (preserves _ (sleep _)) => apply preserves_emit : frame.
#[local] Hint Extern 2 (preserves _ (bind _ _)) =>
  apply preserves_bind; [|intro] : frame.

(** ** The registry never exceeds the pool's capacity *)

Lemma dict_pop_length (d : registry) (k : handle) (v : task)
      (rest : registry) :
  dict_pop d k = Some (v, rest) -> List.length d = S (List.length rest).
Proof.
  revert rest. induction d as [|[k' w] d IH]; simpl; intros rest H.
  - discriminate.
  - destruct (Nat.eqb k' k).
    + injection H as _ <-. reflexivity.
    + destruct (dict_pop d k) as [[w' rest']|]; [|discriminate].
      injection H as -> <-. simpl. f_equal. apply IH. reflexivity.
Qed.

Lemma dict_set_length (d : registry) (k : handle) (v : task) :
  (List.length (dict_set d k v) <= S (List.length d))%nat.
Proof.
  induction d as [|[k' w] d IH]; simpl.
  - lia.
  - destruct (Nat.eqb k' k); simpl; lia.
Qed.

Lemma pop_future_within (n : nat) (fut : handle) :
  preserves (within n) (pop_future fut).
Proof.
  unfold pop_future. apply preserves_bind_get. intros st H.
  destruct (dict_pop (futures st) fut) as [[msg rest]|] eqn:E.
  - msimp. apply dict_pop_length in E. unfold within in *. simpl. lia.
  - exact H.
Qed.

Lemma handle_result_state (r : task_result) (msg : task) (st : State) :
  state_of (handle_result r msg st) = st.
Proof.
  destruct r as [[text|]|[code| | | | | | |]]; simpl; try reflexivity.
  - destruct (String.eqb text ""); reflexivity.
  - destruct (code =? 7426); reflexivity.
Qed.

Lemma rate_stats_within (n : nat) (now : Q) :
  preserves (within n) (rate_stats now).
Proof.
  unfold rate_stats. apply preserves_bind_get. intros st H.
  destruct (messages st mod INTERVAL =? 0); [|exact H].
  msimp. exact H.
Qed.

Lemma harvest_within (n : nat) (inp : IterInput) (fut : handle) :
  preserves (within n) (harvest inp fut).
Proof.
  unfold harvest. apply preserves_bind; [apply pop_future_within|intro msg].
  apply preserves_bind.
  - apply preserves_const. apply handle_result_state.
  - intros _. apply preserves_bind.
    + apply preserves_modify. intros st H. exact H.
    + intros _. apply rate_stats_within.
Qed.

Lemma stuck_scan_state (inp : IterInput) (items : registry) (numStuck : nat)
      (st : State) :
  state_of (stuck_scan inp items numStuck st) = st.
Proof.
  revert numStuck st.
  assert (F : forall P, forall items numStuck,
               preserves P (stuck_scan inp items numStuck)).
  { intros P. induction items0 as [|[fut msg] rest IH]; intros numStuck; simpl.
    - auto with frame.
    - apply preserves_bind; [|intros n'; apply preserves_bind; [|intros _; apply IH]].
      + unfold stuck_test.
        destruct (negb (fut_done inp fut)); auto with frame.
        apply preserves_bind; [auto with frame|intros long].
        destruct long; auto 6 with frame.
      + destruct (max_workers cfg <=? n')%nat; auto with frame. }
  intros numStuck st. apply (F (fun s => s = st)). reflexivity.
Qed.

Lemma stuck_scan_preserves (P : State -> Prop) (inp : IterInput)
      (items : registry) (numStuck : nat) :
  preserves P (stuck_scan inp items numStuck).
Proof. apply preserves_const. apply stuck_scan_state. Qed.

Lemma long_record_check_within (n : nat) (inp : IterInput) :
  preserves (within n) (long_record_check inp).
Proof.
  unfold long_record_check.
  apply preserves_bind; [auto with frame|intros half].
  apply preserves_bind_get. intros st H.
  destruct (Qltb (logCheckTime st + half) (nowTime inp)); [|exact H].
  msimp. rewrite stuck_scan_state. exact H.
Qed.

Lemma drain_within (n : nat) (inp : IterInput) :
  preserves (within n) (drain inp).
Proof.
  unfold drain. apply preserves_bind_get. intros st H.
  destruct (futures st) eqn:E; [exact H|].
  apply preserves_bind; [|intros _; apply long_record_check_within|exact H].
  apply preserves_for_each. intros fut. apply harvest_within.
Qed.

Lemma submit_run (msg : string) (t : Q) (st : State) :
  submit msg t st =
  (Normal tt,
   set_submitted (S (submitted st))
     (set_futures (dict_set (futures st) (submitted st) (msg, t)) st),
   [Submit (submitted st) msg (info cfg)]).
Proof. unfold submit. msimp. reflexivity. Qed.

Lemma fill_loop_within (inp : IterInput) (fuel k : nat) :
  preserves (within (max_workers cfg)) (fill_loop inp fuel k).
Proof.
  revert k. induction fuel as [|fuel IH]; intros k; simpl;
    apply preserves_bind_get; intros st H.
  - destruct (List.length (futures st) <? max_workers cfg)%nat; exact H.
  - destruct (List.length (futures st) <? max_workers cfg)%nat eqn:L;
      [|exact H].
    apply Nat.ltb_lt in L. rewrite state_of_bind_emit.
    destruct (redo inp k) as [err|t|msg t].
    + exact H.
    + msimp. exact H.
    + rewrite (bind_run _ _ _ _ _ _ (submit_run msg t st)).
      cbn [state_of fst snd]. apply IH.
      unfold within in *. simpl.
      pose proof (dict_set_length (futures st) (submitted st) (msg, t)).
      lia.
Qed.

Lemma pause_and_fill_within (inp : IterInput) :
  preserves (within (max_workers cfg)) (pause_and_fill inp).
Proof.
  unfold pause_and_fill. apply preserves_bind_get. intros st H.
  apply preserves_bind; [|intros _|exact H].
  - destruct (negb (Qeq_bool (empty_pause st) 0)); [|auto with frame].
    destruct (Qltb (pause_clock inp) (empty_pause st)); [auto with frame|].
    apply preserves_modify. intros st' H'. exact H'.
  - apply preserves_bind_get. intros st' H'.
    apply fill_loop_within. exact H'.
Qed.

Lemma govern_and_fill_within (inp : IterInput) :
  preserves (within (max_workers cfg)) (govern_and_fill inp).
Proof.
  unfold govern_and_fill. apply preserves_bind_get. intros st H.
  destruct (Qltb (govern inp) 0); [exact H|].
  destruct (max_workers cfg <=? List.length (futures st))%nat; [exact H|].
  apply preserves_bind; [|intros _; apply pause_and_fill_within|exact H].
  destruct (Qltb 0 (govern inp)); auto with frame.
Qed.

Lemma iteration_within (inp : IterInput) :
  preserves (within (max_workers cfg)) (iteration inp).
Proof.
  unfold iteration. apply preserves_bind.
  - apply drain_within.
  - intros _. apply govern_and_fill_within.
Qed.

Lemma turn_state (inp : IterInput) (st : State) :
  state_of (turn inp st) = state_of (iteration inp st).
Proof.
  unfold turn. destruct (iteration inp st) as [[[| | | |] s] t]; reflexivity.
Qed.

Lemma turn_trace (inp : IterInput) (st : State) :
  trace_of (turn inp st) = trace_of (iteration inp st).
Proof.
  unfold turn. destruct (iteration inp st) as [[[| | | |] s] t]; reflexivity.
Qed.

Lemma main_loop_within (inps : list IterInput) :
  preserves (within (max_workers cfg)) (main_loop inps).
Proof.
  apply preserves_for_each. intros inp st H.
  rewrite turn_state. apply iteration_within. exact H.
Qed.

Lemma still_processing_state (sd : ShutdownInput) (items : registry)
      (st : State) :
  state_of (still_processing sd items st) = st.
Proof.
  revert st.
  assert (F : forall P, preserves P (still_processing sd items)).
  { intros P. induction items as [|[fut msg] rest IH]; simpl.
    - auto with frame.
    - apply preserves_bind; [|intros _; exact IH].
      unfold still_report.
      destruct (negb (shutdown_done sd fut)); auto with frame. }
  intros st. apply (F (fun s => s = st)). reflexivity.
Qed.

Lemma shutdown_handler_state (err : exn) (sd : ShutdownInput) (st : State) :
  state_of (shutdown_handler err sd st) = st.
Proof.
  assert (F : forall P, preserves P (shutdown_handler err sd)).
  { intros P. unfold shutdown_handler.
    do 2 (apply preserves_bind; [auto with frame|intros _]).
    apply preserves_bind_get. intros s HP.
    apply preserves_bind; [|auto with frame|exact HP].
    apply preserves_const. apply still_processing_state. }
  apply (F (fun s => s = st)). reflexivity.
Qed.

Lemma guarded_loop_state (inps : list IterInput) (sd : ShutdownInput)
      (st : State) :
  state_of (guarded_loop inps sd st) = state_of (main_loop inps st).
Proof.
  unfold guarded_loop.
  destruct (main_loop inps st) as [[[| |err| |] s] t]; try reflexivity.
  pose proof (shutdown_handler_state err sd s) as E.
  destruct (shutdown_handler err sd s) as [[c s2] t2]. exact E.
Qed.

Lemma with_executor_state (body : M unit) (st : State) :
  state_of (with_executor body st) = state_of (body st).
Proof.
  unfold with_executor. destruct (body st) as [[[| | | |] s] t]; reflexivity.
Qed.

Lemma program_state (start : Q) (inps : list IterInput)
      (sd : ShutdownInput) :
  state_of (program start inps sd) =
  state_of (main_loop inps (initial_state start)).
Proof.
  unfold program.
  rewrite <- (guarded_loop_state inps sd).
  match goal with
  | |- state_of (match ?b ?s with _ => _ end) = _ =>
      assert (E : state_of (b s) = state_of (guarded_loop inps sd s));
      [|destruct (b s) as [[[| | | |] s1] t1]; exact E]
  end.
  rewrite with_executor_state. msimp. reflexivity.
Qed.

(** *** The fuel of the fill loop suffices *)

Lemma fuelled_bind {A B} (m : M A) (k : A -> M B) :
  fuelled m -> (forall a, fuelled (k a)) -> fuelled (bind m k).
Proof.
  intros Hm Hk st. specialize (Hm st). unfold bind, ctl_of in *.
  destruct (m st) as [[c s1] t1]; simpl in Hm.
  destruct c; simpl; try discriminate;
    try (exfalso; apply Hm; reflexivity).
  specialize (Hk a s1). destruct (k a s1) as [[c2 s2] t2]. exact Hk.
Qed.

Lemma fuelled_for_each {A} (l : list A) (body : A -> M unit) :
  (forall x, fuelled (body x)) -> fuelled (for_each l body).
Proof.
  intros H. induction l as [|x l IH]; simpl.
  - intros st. discriminate.
  - apply fuelled_bind; auto.
Qed.

Ltac fuel :=
  repeat first
    [ progress intros
    | apply fuelled_bind
    | match goal with
      | |- fuelled (if ?b then _ else _) => destruct b
      | |- fuelled (match ?x with _ => _ end) => destruct x
      | |- fuelled _ => intros ?; discriminate
      end ].

Lemma harvest_fuelled (inp : IterInput) (fut : handle) :
  fuelled (harvest inp fut).
Proof.
  unfold harvest, pop_future, handle_result, rate_stats. apply fuelled_bind.
  - intros st. rewrite bind_get.
    destruct (dict_pop (futures st) fut) as [[m r]|]; msimp; discriminate.
  - intros msg. apply fuelled_bind; [fuel|intros _].
    apply fuelled_bind; [fuel|intros _].
    intros st. rewrite bind_get.
    destruct (messages st mod INTERVAL =? 0); msimp; discriminate.
Qed.

Lemma stuck_scan_fuelled (inp : IterInput) (items : registry) (n : nat) :
  fuelled (stuck_scan inp items n).
Proof.
  revert n. induction items as [|[fut msg] rest IH]; intros n; simpl.
  - intros st. discriminate.
  - apply fuelled_bind; [unfold stuck_test, lift; fuel|intros n'].
    apply fuelled_bind; [fuel|intros _; apply IH].
Qed.

Lemma drain_fuelled (inp : IterInput) : fuelled (drain inp).
Proof.
  unfold drain. intros st. rewrite bind_get.
  destruct (futures st); [discriminate|].
  apply fuelled_bind.
  - apply fuelled_for_each. intros fut. apply harvest_fuelled.
  - intros _. unfold long_record_check. apply fuelled_bind.
    + unfold lift. fuel.
    + intros half s. rewrite bind_get.
      destruct (Qltb (logCheckTime s + half) (nowTime inp));
        [|discriminate].
      msimp. apply stuck_scan_fuelled.
Qed.

Lemma dict_pop_keys (d : registry) (k : handle) (v : task) (rest : registry)
      (g : handle) :
  dict_pop d k = Some (v, rest) -> In g (map fst rest) -> In g (map fst d).
Proof.
  revert rest. induction d as [|[k' w] d IH]; simpl; intros rest P I.
  - discriminate.
  - destruct (Nat.eqb k' k).
    + injection P as _ <-. right. exact I.
    + destruct (dict_pop d k) as [[w' rest']|]; [|discriminate].
      injection P as -> <-. simpl in I.
      destruct I as [I|I]; [left; exact I|right; eapply IH; eauto].
Qed.

Lemma dict_set_new (d : registry) (k : handle) (v : task) :
  ~ In k (map fst d) -> dict_set d k v = d ++ [(k, v)].
Proof.
  induction d as [|[k' w] d IH]; simpl; intros N; [reflexivity|].
  destruct (Nat.eqb_spec k' k) as [E|E]; [tauto|].
  rewrite IH by tauto. reflexivity.
Qed.

Lemma harvest_fresh (inp : IterInput) (fut : handle) :
  preserves fresh (harvest inp fut).
Proof.
  unfold harvest, pop_future. apply preserves_bind.
  - apply preserves_bind_get. intros st H.
    destruct (dict_pop (futures st) fut) as [[m r]|] eqn:P; msimp;
      [|exact H].
    intros key I. apply H. apply (dict_pop_keys _ _ _ _ key P). exact I.
  - intros msg. apply preserves_bind;
      [apply preserves_const, handle_result_state|intros _].
    apply preserves_bind; [apply preserves_modify; auto|intros _].
    unfold rate_stats. apply preserves_bind_get. intros st H.
    destruct (messages st mod INTERVAL =? 0); msimp; exact H.
Qed.

Lemma drain_fresh (inp : IterInput) : preserves fresh (drain inp).
Proof.
  unfold drain. apply preserves_bind_get. intros st H.
  destruct (futures st) eqn:E; [exact H|].
  apply preserves_bind; [| |exact H].
  - apply preserves_for_each. intros fut. apply harvest_fresh.
  - intros _. unfold long_record_check.
    apply preserves_bind; [auto with frame|intros half].
    apply preserves_bind_get. intros s Hs.
    destruct (Qltb (logCheckTime s + half) (nowTime inp)); [|exact Hs].
    msimp. rewrite stuck_scan_state. exact Hs.
Qed.

(** From a state whose futures are all known to the executor, fuel for as
    many passes as the registry has room is enough. *)
Lemma fill_loop_enough_fuel (inp : IterInput) (fuel : nat) :
  forall k st,
    fresh st ->
    (max_workers cfg - List.length (futures st) <= fuel)%nat ->
    ctl_of (fill_loop inp fuel k st) <> OutOfFuel /\
    fresh (state_of (fill_loop inp fuel k st)).
Proof.
  induction fuel as [|fuel IH]; intros k st F L; simpl; rewrite bind_get.
  - destruct (Nat.ltb_spec (List.length (futures st)) (max_workers cfg));
      [lia|]. split; [discriminate|exact F].
  - destruct (Nat.ltb_spec (List.length (futures st)) (max_workers cfg));
      [|split; [discriminate|exact F]].
    rewrite bind_emit. cbn [ctl_of state_of fst snd].
    destruct (redo inp k) as [err|t|msg t].
    + split; [discriminate|exact F].
    + msimp. split; [discriminate|exact F].
    + rewrite (bind_run _ _ _ _ _ _ (submit_run msg t st)).
      cbn [ctl_of state_of fst snd].
      assert (N : ~ In (submitted st) (map fst (futures st)))
        by (intros I; apply F in I; lia).
      apply IH.
      * intros key. cbn [futures submitted set_submitted set_futures].
        rewrite (dict_set_new _ _ _ N), map_app, in_app_iff. simpl.
        intros [I|[<-|[]]]; [apply F in I|]; lia.
      * cbn [futures set_submitted set_futures].
        rewrite (dict_set_new _ _ _ N), length_app. simpl. lia.
Qed.

Lemma bind_enough_fuel {A B} (P : State -> Prop) (m : M A) (k : A -> M B)
      (st : State) :
  ctl_of (m st) <> OutOfFuel /\ P (state_of (m st)) ->
  (forall a s, P s -> ctl_of (k a s) <> OutOfFuel /\ P (state_of (k a s))) ->
  ctl_of (bind m k st) <> OutOfFuel /\ P (state_of (bind m k st)).
Proof.
  unfold bind, ctl_of, state_of.
  destruct (m st) as [[c s1] t1]; simpl. intros [C Ps] K.
  destruct c; simpl; try (split; [discriminate|exact Ps]);
    try (exfalso; apply C; reflexivity).
  specialize (K a s1 Ps). destruct (k a s1) as [[c2 s2] t2]. exact K.
Qed.

Lemma pause_and_fill_enough_fuel (inp : IterInput) (st : State) :
  fresh st ->
  ctl_of (pause_and_fill inp st) <> OutOfFuel /\
  fresh (state_of (pause_and_fill inp st)).
Proof.
  intros F. unfold pause_and_fill. rewrite bind_get.
  destruct (negb (Qeq_bool (empty_pause st) 0)).
  - destruct (Qltb (pause_clock inp) (empty_pause st)).
    + split; [discriminate|exact F].
    + rewrite bind_modify, bind_get.
      apply fill_loop_enough_fuel; [exact F|reflexivity].
  - unfold pass. rewrite bind_ret, bind_get.
    apply fill_loop_enough_fuel; [exact F|reflexivity].
Qed.

Lemma iteration_enough_fuel (inp : IterInput) (st : State) :
  fresh st ->
  ctl_of (iteration inp st) <> OutOfFuel /\ fresh (state_of (iteration inp st)).
Proof.
  intros F. unfold iteration. apply bind_enough_fuel.
  - split; [apply drain_fuelled|apply drain_fresh; exact F].
  - intros _ s Fs. unfold govern_and_fill. rewrite bind_get.
    destruct (Qltb (govern inp) 0); [split; [discriminate|exact Fs]|].
    destruct (max_workers cfg <=? List.length (futures s))%nat;
      [split; [discriminate|exact Fs]|].
    pose proof (pause_and_fill_enough_fuel inp s Fs) as P.
    destruct (Qltb 0 (govern inp)); msimp; exact P.
Qed.

Lemma turn_enough_fuel (inp : IterInput) (st : State) :
  fresh st ->
  ctl_of (turn inp st) <> OutOfFuel /\ fresh (state_of (turn inp st)).
Proof.
  intros F. destruct (iteration_enough_fuel inp st F) as [C Fi].
  unfold turn, ctl_of, state_of in *.
  destruct (iteration inp st) as [[c s1] t1]; simpl in *.
  destruct c; simpl; split; try discriminate; assumption.
Qed.

Lemma main_loop_enough_fuel (inps : list IterInput) :
  forall st,
    fresh st ->
    ctl_of (main_loop inps st) <> OutOfFuel /\
    fresh (state_of (main_loop inps st)).
Proof.
  unfold main_loop. induction inps as [|inp inps IH]; intros st F; simpl.
  - split; [discriminate|exact F].
  - apply bind_enough_fuel.
    + apply turn_enough_fuel. exact F.
    + intros _ s Fs. apply IH. exact Fs.
Qed.

(** C1: the registry never holds more tasks than the pool has workers.
    Whatever the inputs of the turns made so far, the registry of the state
    the loop is in (also where a turn was cut short by an exception, after
    any number of completions harvested or records submitted) holds at most
    [max_workers] tasks, and so does the one the program ends with.
    Harvesting a completion never adds a task, and the fill loop does
    nothing unless the registry is strictly below capacity.  The loop as
    modelled never stops for want of fuel. *)
Theorem registry_within_capacity (start : Q) (inps : list IterInput)
        (sd : ShutdownInput) :
  (List.length (futures (state_of (main_loop inps (initial_state start))))
   <= max_workers cfg)%nat /\
  (List.length (futures (state_of (program start inps sd)))
   <= max_workers cfg)%nat /\
  (forall inp fut st,
      (List.length (futures (state_of (harvest inp fut st)))
       <= List.length (futures st))%nat) /\
  (forall inp fuel k st,
      (List.length (futures st) < max_workers cfg)%nat \/
      fill_loop inp fuel k st = (Normal tt, st, [])) /\
  ctl_of (main_loop inps (initial_state start)) <> OutOfFuel.
Proof.
  assert (H : within (max_workers cfg)
                     (state_of (main_loop inps (initial_state start)))).
  { apply main_loop_within. unfold within. simpl. lia. }
  split; [exact H|]. split; [|split; [|split]].
  - rewrite program_state. exact H.
  - intros inp fut st.
    apply (harvest_within (List.length (futures st)) inp fut st).
    unfold within. lia.
  - intros inp fuel k st.
    destruct (List.length (futures st) <? max_workers cfg)%nat eqn:L.
    + left. apply Nat.ltb_lt. exact L.
    + right. destruct fuel; simpl; rewrite bind_get, L; reflexivity.
  - apply main_loop_enough_fuel. intros key I. contradiction.
Qed.

(** ** The governor's decision *)

Lemma Qltb_eq_l (x y : Q) : (x == y)%Q -> Qltb x y = false.
Proof.
  intros E. apply Qltb_ge. apply Qle_lteq. right. symmetry. exact E.
Qed.

Lemma Qltb_eq_r (x y : Q) : (x == y)%Q -> Qltb y x = false.
Proof. intros E. apply Qltb_ge. apply Qle_lteq. right. exact E. Qed.

Lemma govern_negative (inp : IterInput) (st : State) :
  (govern inp < 0)%Q ->
  govern_and_fill inp st = (Continue, st, [Sleep 1]).
Proof.
  intros H. unfold govern_and_fill. rewrite bind_get.
  apply Qltb_lt in H. rewrite H. reflexivity.
Qed.

Lemma govern_full (inp : IterInput) (st : State) :
  (0 <= govern inp)%Q ->
  (max_workers cfg <= List.length (futures st))%nat ->
  govern_and_fill inp st = (Continue, st, [Sleep 1]).
Proof.
  intros H L. unfold govern_and_fill. rewrite bind_get.
  apply Qltb_ge in H. rewrite H.
  apply Nat.leb_le in L. rewrite L. reflexivity.
Qed.

Lemma govern_positive (inp : IterInput) (st : State) :
  (0 < govern inp)%Q ->
  (List.length (futures st) < max_workers cfg)%nat ->
  govern_and_fill inp st =
  (ctl_of (pause_and_fill inp st), state_of (pause_and_fill inp st),
   Sleep (govern inp) :: trace_of (pause_and_fill inp st)).
Proof.
  intros H L. unfold govern_and_fill. rewrite bind_get.
  assert (N : Qltb (govern inp) 0 = false)
    by (apply Qltb_ge, Qlt_le_weak; exact H).
  rewrite N. apply Nat.leb_gt in L. rewrite L.
  apply Qltb_lt in H. rewrite H. unfold sleep. rewrite bind_emit.
  reflexivity.
Qed.

Lemma govern_zero (inp : IterInput) (st : State) :
  (govern inp == 0)%Q ->
  (List.length (futures st) < max_workers cfg)%nat ->
  govern_and_fill inp st = pause_and_fill inp st.
Proof.
  intros H L. unfold govern_and_fill. rewrite bind_get.
  rewrite (Qltb_eq_l _ _ H), (Qltb_eq_r _ _ H).
  apply Nat.leb_gt in L. rewrite L. unfold pass. rewrite bind_ret.
  reflexivity.
Qed.

(** With no empty-pause deadline set and room in the registry, the next
    thing the loop does is ask the engine for a redo record. *)
Lemma pause_and_fill_fetches (inp : IterInput) (st : State) :
  (empty_pause st == 0)%Q ->
  (List.length (futures st) < max_workers cfg)%nat ->
  exists rest, trace_of (pause_and_fill inp st) = GetRedoRecord :: rest.
Proof.
  intros E L. unfold pause_and_fill. rewrite bind_get.
  apply Qeq_bool_iff in E. rewrite E. simpl negb. cbv iota.
  unfold pass. rewrite bind_ret, bind_get.
  destruct (max_workers cfg - List.length (futures st))%nat as [|fuel] eqn:F;
    [lia|].
  simpl. rewrite bind_get.
  apply Nat.ltb_lt in L. rewrite L. rewrite bind_emit.
  eexists. reflexivity.
Qed.

Lemma iteration_after_drain (inp : IterInput) (st : State) :
  ctl_of (drain inp st) = Normal tt ->
  iteration inp st =
  (ctl_of (govern_and_fill inp (state_of (drain inp st))),
   state_of (govern_and_fill inp (state_of (drain inp st))),
   trace_of (drain inp st)
     ++ trace_of (govern_and_fill inp (state_of (drain inp st)))).
Proof.
  intros H. unfold iteration. rewrite (bind_normal _ _ _ tt H). reflexivity.
Qed.

(** C2: how a turn honours the governor's decision once the completions are
    drained.  A negative decision: one [Sleep 1] and [continue], nothing
    fetched or submitted, whatever the registry holds.  Otherwise, a full
    registry: the same.  Otherwise, a positive decision: a sleep of that
    many seconds, then the rest of the body.  A decision of zero (with room
    in the registry): no sleep, the rest of the body follows at once, and
    with no empty-pause deadline pending its first act is to fetch a redo
    record. *)
Theorem governor_decision_honoured (inp : IterInput) (st : State)
        (Hdrain : ctl_of (drain inp st) = Normal tt) :
  let s1 := state_of (drain inp st) in
  let t1 := trace_of (drain inp st) in
  let rest := pause_and_fill inp s1 in
  ((govern inp < 0)%Q ->
   iteration inp st = (Continue, s1, t1 ++ [Sleep 1])) /\
  ((0 <= govern inp)%Q ->
   (max_workers cfg <= List.length (futures s1))%nat ->
   iteration inp st = (Continue, s1, t1 ++ [Sleep 1])) /\
  ((0 < govern inp)%Q ->
   (List.length (futures s1) < max_workers cfg)%nat ->
   iteration inp st =
   (ctl_of rest, state_of rest,
    t1 ++ Sleep (govern inp) :: trace_of rest)) /\
  ((govern inp == 0)%Q ->
   (List.length (futures s1) < max_workers cfg)%nat ->
   iteration inp st = (ctl_of rest, state_of rest, t1 ++ trace_of rest) /\
   ((empty_pause s1 == 0)%Q ->
    exists more,
      trace_of (iteration inp st) = t1 ++ GetRedoRecord :: more)).
Proof.
  intros s1 t1 rest. rewrite (iteration_after_drain inp st Hdrain).
  fold s1 t1. split; [|split; [|split]].
  - intros G. rewrite (govern_negative inp s1 G). reflexivity.
  - intros G L. rewrite (govern_full inp s1 G L). reflexivity.
  - intros G L. rewrite (govern_positive inp s1 G L). reflexivity.
  - intros G L. rewrite (govern_zero inp s1 G L). split; [reflexivity|].
    intros E. destruct (pause_and_fill_fetches inp s1 E L) as [more Hm].
    exists more. cbn [trace_of snd]. rewrite Hm. reflexivity.
Qed.

(** ** The empty pause *)











(** ** Harvesting completions *)

Lemma rate_stats_ctl (now : Q) (st : State) :
  ctl_of (rate_stats now st) = Normal tt.
Proof.
  unfold rate_stats. rewrite bind_get.
  destruct (messages st mod INTERVAL =? 0); msimp; reflexivity.
Qed.

Lemma rate_stats_messages (now : Q) (st : State) :
  messages (state_of (rate_stats now st)) = messages st.
Proof.
  unfold rate_stats. rewrite bind_get.
  destruct (messages st mod INTERVAL =? 0); msimp; reflexivity.
Qed.

Lemma rate_stats_futures (now : Q) (st : State) :
  futures (state_of (rate_stats now st)) = futures st.
Proof.
  unfold rate_stats. rewrite bind_get.
  destruct (messages st mod INTERVAL =? 0); msimp; reflexivity.
Qed.

Lemma rate_stats_quiet (now : Q) (st : State) :
  messages st mod INTERVAL <> 0 -> rate_stats now st = (Normal tt, st, []).
Proof.
  intros H. unfold rate_stats. rewrite bind_get.
  apply Z.eqb_neq in H. rewrite H. reflexivity.
Qed.

(** A completion whose outcome is handled: the task leaves the registry, the
    notice (if any) is printed, the counter goes up by one and the rate
    statistics follow. *)
Lemma harvest_handled (inp : IterInput) (fut : handle) (st : State)
      (msg : task) (rest : registry) (notice : list event) :
  dict_pop (futures st) fut = Some (msg, rest) ->
  (forall s, handle_result (fut_result inp fut) msg s = (Normal tt, s, notice)) ->
  harvest inp fut st =
  (Normal tt,
   state_of (rate_stats (nowTime inp) (counted rest st)),
   notice ++ trace_of (rate_stats (nowTime inp) (counted rest st))).
Proof.
  intros P H. unfold harvest, pop_future.
  assert (E : (st0 <- get ;;
               match dict_pop (futures st0) fut with
               | Some (msg0, rest0) => modify (set_futures rest0) ;; ret msg0
               | None => raise KeyError
               end) st = (Normal msg, set_futures rest st, [])).
  { rewrite bind_get, P, bind_modify. reflexivity. }
  rewrite (bind_run _ _ _ _ _ _ E).
  rewrite (bind_run _ _ _ _ _ _ (H (set_futures rest st))).
  rewrite bind_modify. cbn [app].
  pose proof (rate_stats_ctl (nowTime inp) (counted rest st)) as C.
  unfold counted in *. cbn [messages set_futures] in *. rewrite C.
  reflexivity.
Qed.

(** A completion whose outcome is of no class the loop catches: the
    exception leaves the loop body, the task already out of the registry. *)
Lemma harvest_fatal (inp : IterInput) (fut : handle) (st : State)
      (msg : task) (rest : registry) :
  dict_pop (futures st) fut = Some (msg, rest) ->
  recoverable (fut_result inp fut) = false ->
  exists err,
    fut_result inp fut = Raised err /\
    harvest inp fut st = (Raise err, set_futures rest st, []).
Proof.
  intros P H. unfold harvest, pop_future.
  assert (E : (st0 <- get ;;
               match dict_pop (futures st0) fut with
               | Some (msg0, rest0) => modify (set_futures rest0) ;; ret msg0
               | None => raise KeyError
               end) st = (Normal msg, set_futures rest st, [])).
  { rewrite bind_get, P, bind_modify. reflexivity. }
  rewrite (bind_run _ _ _ _ _ _ E). cbn [app].
  destruct (fut_result inp fut) as [r|err]; [discriminate|].
  exists err. split; [reflexivity|].
  destruct err; try discriminate; reflexivity.
Qed.

Lemma handle_result_recoverable (r : task_result) (msg : task) :
  recoverable r = true ->
  exists notice, forall s, handle_result r msg s = (Normal tt, s, notice).
Proof.
  destruct r as [[text|]|[code| | | | | | |]]; simpl; try discriminate;
    intros _.
  - destruct (String.eqb text ""); eexists; reflexivity.
  - eexists; reflexivity.
  - destruct (code =? 7426); eexists; reflexivity.
  - eexists; reflexivity.
Qed.

Lemma harvest_recoverable (inp : IterInput) (fut : handle) (st : State)
      (msg : task) (rest : registry) :
  dict_pop (futures st) fut = Some (msg, rest) ->
  recoverable (fut_result inp fut) = true ->
  ctl_of (harvest inp fut st) = Normal tt /\
  messages (state_of (harvest inp fut st)) = messages st + 1 /\
  futures (state_of (harvest inp fut st)) = rest.
Proof.
  intros P R.
  destruct (handle_result_recoverable _ msg R) as [notice H].
  rewrite (harvest_handled inp fut st msg rest notice P H).
  cbn [ctl_of state_of fst snd].
  rewrite rate_stats_messages, rate_stats_futures. auto.
Qed.

Lemma dict_pop_present (d : registry) (k : handle) :
  In k (map fst d) -> exists v rest, dict_pop d k = Some (v, rest).
Proof.
  induction d as [|[k' w] d IH]; simpl; [tauto|].
  intros H. destruct (Nat.eqb_spec k' k) as [E|E].
  - eauto.
  - destruct H as [H|H]; [contradiction|].
    destruct (IH H) as (v & rest & ->). eauto.
Qed.

Lemma dict_pop_others (d : registry) (k : handle) (v : task)
      (rest : registry) (g : handle) :
  dict_pop d k = Some (v, rest) -> g <> k ->
  In g (map fst d) -> In g (map fst rest).
Proof.
  revert rest. induction d as [|[k' w] d IH]; simpl; intros rest P N H.
  - contradiction.
  - destruct (Nat.eqb_spec k' k) as [E|E].
    + injection P as _ <-. destruct H as [H|H]; [congruence|exact H].
    + destruct (dict_pop d k) as [[w' rest']|]; [|discriminate].
      injection P as -> <-. simpl.
      destruct H as [H|H]; [left; exact H|right].
      apply IH; auto.
Qed.

(** Harvesting a completed set of distinct registered futures whose outcomes
    are all recoverable: the loop goes on and the counter has grown by the
    size of the set. *)
Lemma harvest_all_recoverable (inp : IterInput) (done : list handle) :
  forall st,
    NoDup done ->
    (forall fut, In fut done -> In fut (map fst (futures st))) ->
    (forall fut, In fut done -> recoverable (fut_result inp fut) = true) ->
    ctl_of (for_each done (harvest inp) st) = Normal tt /\
    messages (state_of (for_each done (harvest inp) st))
    = messages st + Z.of_nat (List.length done).
Proof.
  induction done as [|fut done IH]; intros st ND K R.
  - simpl. split; [reflexivity|]. cbn. lia.
  - inversion ND as [|? ? NI ND']; subst.
    destruct (dict_pop_present (futures st) fut (K fut (or_introl eq_refl)))
      as (msg & rest & P).
    destruct (harvest_recoverable inp fut st msg rest P
                (R fut (or_introl eq_refl))) as (C & Mm & F).
    cbn [for_each]. rewrite (bind_normal _ _ _ tt C).
    cbn [ctl_of state_of fst snd].
    destruct (IH (state_of (harvest inp fut st)) ND') as (C' & M').
    + intros g G. rewrite F.
      apply (dict_pop_others _ _ _ _ g P); [|apply K; right; exact G].
      intros ->. contradiction.
    + intros g G. apply R. right. exact G.
    + split; [exact C'|]. rewrite M', Mm.
      change (List.length (fut :: done)) with (S (List.length done)). lia.
Qed.

(** C4: the recoverable skips, worker and loop together.  For a task the
    worker ran on the engine and the loop takes out of the registry: when
    the engine rejects the record as bad input, the worker has written one
    line to the standard error with the error and the record's message, the
    harvest counts the completion and the loop goes on (printing, for code
    7426, the transliteration notice with the message as well); when the
    engine's retries time out, the worker has written its line likewise,
    the loop prints the retry-timeout notice, counts the completion and goes
    on.  And a completed set of distinct registered futures whose outcomes
    are all results or failures of these two classes is harvested without
    aborting, the counter growing by the size of the set. *)
Theorem recoverable_skips (engine : string -> bool -> exn + string)
        (inp : IterInput) (fut : handle) (st : State)
        (entry : task) (rest : registry)
        (Hpop : dict_pop (futures st) fut = Some (entry, rest))
        (Hrun : worked_by engine inp fut entry) :
  let msg := TUPLE_MSG entry in
  let written := fst (process_msg engine msg (info cfg)) in
  let after := rate_stats (nowTime inp) (counted rest st) in
  (forall code,
      engine msg (info cfg) = inl (G2BadInputException code) ->
      written = [Stderr (WorkerError (G2BadInputException code) msg)] /\
      ctl_of (harvest inp fut st) = Normal tt /\
      messages (state_of (harvest inp fut st)) = messages st + 1 /\
      futures (state_of (harvest inp fut st)) = rest) /\
  (engine msg (info cfg) = inl (G2BadInputException 7426) ->
   harvest inp fut st =
   (Normal tt, state_of after,
    Stdout (TransliterationFailure msg) :: trace_of after)) /\
  (engine msg (info cfg) = inl G2RetryTimeoutExceeded ->
   written = [Stderr (WorkerError G2RetryTimeoutExceeded msg)] /\
   harvest inp fut st =
   (Normal tt, state_of after, Stdout HitRetryTimeout :: trace_of after) /\
   messages (state_of (harvest inp fut st)) = messages st + 1 /\
   futures (state_of (harvest inp fut st)) = rest) /\
  (forall done,
      NoDup done ->
      (forall f, In f done -> In f (map fst (futures st))) ->
      (forall f, In f done -> recoverable (fut_result inp f) = true) ->
      ctl_of (for_each done (harvest inp) st) = Normal tt /\
      messages (state_of (for_each done (harvest inp) st))
      = messages st + Z.of_nat (List.length done)).
Proof.
  intros msg written after. unfold worked_by in Hrun. fold msg in Hrun.
  unfold written, process_msg. unfold process_msg in Hrun.
  split; [|split; [|split]].
  - intros code E. rewrite E in *. cbn [fst snd] in *.
    split; [reflexivity|].
    apply (harvest_recoverable inp fut st entry rest Hpop).
    rewrite Hrun. reflexivity.
  - intros E. rewrite E in Hrun. cbn [snd] in Hrun.
    apply (harvest_handled inp fut st entry rest
             [Stdout (TransliterationFailure (TUPLE_MSG entry))] Hpop).
    intros s. rewrite Hrun. reflexivity.
  - intros E. rewrite E in *. cbn [fst snd] in *.
    split; [reflexivity|]. split.
    + apply (harvest_handled inp fut st entry rest [Stdout HitRetryTimeout]
               Hpop).
      intros s. rewrite Hrun. reflexivity.
    + assert (R : recoverable (fut_result inp fut) = true)
        by (rewrite Hrun; reflexivity).
      destruct (harvest_recoverable inp fut st entry rest Hpop R)
        as (_ & Mm & Fu).
      split; assumption.
  - intros done. apply harvest_all_recoverable.
Qed.

(** C10 (amended): a bad-input failure whose code is not 7426.  For a task
    the worker ran on the engine, rejected by it as bad input with such a
    code, and taken out of the registry by the loop: the one line written
    for the record is the worker's, on the standard error, with the error
    and the record's message; the loop itself prints nothing for it, so that
    all the body of the harvest loop can print for this completion is the
    rate line (none unless the new count is a multiple of [INTERVAL]); the
    counter goes up by one, the task leaves the registry and the loop goes
    on.  And the loop prints the transliteration notice for no outcome but a
    bad-input failure with code 7426. *)
Theorem bad_input_other_code_silent (engine : string -> bool -> exn + string)
        (inp : IterInput) (fut : handle)
        (st : State) (entry : task) (rest : registry) (code : Z)
        (Hpop : dict_pop (futures st) fut = Some (entry, rest))
        (Hrun : worked_by engine inp fut entry)
        (Hbad : engine (TUPLE_MSG entry) (info cfg)
                = inl (G2BadInputException code))
        (Hcode : code <> 7426) :
  let msg := TUPLE_MSG entry in
  let written := fst (process_msg engine msg (info cfg)) in
  let after := rate_stats (nowTime inp) (counted rest st) in
  written = [Stderr (WorkerError (G2BadInputException code) msg)] /\
  fut_result inp fut = Raised (G2BadInputException code) /\
  (forall s, handle_result (fut_result inp fut) entry s = (Normal tt, s, []))
  /\
  harvest inp fut st = (Normal tt, state_of after, trace_of after) /\
  messages (state_of (harvest inp fut st)) = messages st + 1 /\
  futures (state_of (harvest inp fut st)) = rest /\
  ((messages st + 1) mod INTERVAL <> 0 ->
   trace_of (harvest inp fut st) = []) /\
  (forall r m s text,
      In (Stdout (TransliterationFailure text))
         (trace_of (handle_result r m s)) ->
      r = Raised (G2BadInputException 7426)).
Proof.
  intros msg written after.
  assert (Hres : fut_result inp fut = Raised (G2BadInputException code)).
  { unfold worked_by, process_msg in Hrun. rewrite Hbad in Hrun. exact Hrun. }
  assert (H : forall s,
             handle_result (fut_result inp fut) entry s = (Normal tt, s, [])).
  { intros s. rewrite Hres. simpl.
    apply Z.eqb_neq in Hcode. rewrite Hcode. reflexivity. }
  pose proof (harvest_handled inp fut st entry rest [] Hpop H) as E.
  cbn [app] in E. fold after in E.
  assert (R : recoverable (fut_result inp fut) = true)
    by (rewrite Hres; reflexivity).
  destruct (harvest_recoverable inp fut st entry rest Hpop R) as (_ & Mm & Fu).
  split; [unfold written, msg, process_msg; rewrite Hbad; reflexivity|].
  split; [exact Hres|]. split; [exact H|]. split; [exact E|].
  split; [exact Mm|]. split; [exact Fu|]. split.
  - intros Hq. rewrite E. cbn [trace_of snd]. unfold after.
    rewrite rate_stats_quiet; [reflexivity|exact Hq].
  - intros r m s text I.
    destruct r as [[t|]|[c| | | | | | |]]; simpl in I;
      try (destruct I as [I|[]]; discriminate); try contradiction.
    + destruct (String.eqb t ""); simpl in I;
        [contradiction|destruct I as [I|[]]; discriminate].
    + destruct (Z.eqb_spec c 7426) as [->|N]; [reflexivity|].
      simpl in I. contradiction.
Qed.

(** ** The rate statistics *)

Lemma py_int_floor (q : Q) : (0 <= q)%Q -> py_int q = Qfloor q.
Proof.
  destruct q as [n d]. unfold Qle, py_int, Qfloor. simpl. intros H.
  apply Z.quot_div_nonneg; lia.
Qed.

Lemma py_int_bounds (q : Q) :
  (0 <= q)%Q ->
  (inject_Z (py_int q) <= q)%Q /\ (q < inject_Z (py_int q + 1))%Q.
Proof.
  intros H. rewrite (py_int_floor q H). split.
  - apply Qfloor_le.
  - apply Qlt_floor.
Qed.

Lemma rate_stats_due (now : Q) (st : State) :
  messages st mod INTERVAL = 0 ->
  rate_stats now st =
  (Normal tt, set_prevTime now st,
   [Stdout (Processed (messages st)
              (if Qltb 0 (now - prevTime st)
               then py_int (inject_Z INTERVAL / (now - prevTime st))
               else -1))]).
Proof.
  intros H. unfold rate_stats. rewrite bind_get.
  apply Z.eqb_eq in H. rewrite H. msimp. reflexivity.
Qed.


(** ** The periodic check and the stuck-task scan *)

Lemma stuck_test_unset (inp : IterInput) (fut : handle) (msg : task)
      (n : nat) (st : State) :
  env_LONG_RECORD cfg = None ->
  (overdue 300 inp (fut, msg) = false ->
   stuck_test inp fut msg n st = (Normal n, st, [])) /\
  (overdue 300 inp (fut, msg) = true ->
   forall id, record_id (TUPLE_MSG msg) = inr id ->
   stuck_test inp fut msg n st
   = (Normal (S n), st, [long_line inp (fut, msg)])).
Proof.
  intros U. unfold stuck_test, overdue, long_line, id_or_empty, age,
              long_record, LONG_RECORD.
  rewrite U. cbn [getenv py_mul py_float_gt lift fst snd].
  change (300 * 2) with 600.
  destruct (fut_done inp fut); cbn [negb andb]; [split; [reflexivity|discriminate]|].
  rewrite bind_ret.
  destruct (Qltb (inject_Z 600) (nowTime inp - TUPLE_STARTTIME msg));
    split; try discriminate; try reflexivity.
  intros _ id ->. cbn [lift]. msimp. reflexivity.
Qed.

Lemma stuck_scan_unset (inp : IterInput) (items : registry) :
  env_LONG_RECORD cfg = None ->
  (forall item, In item items -> overdue 300 inp item = true ->
                exists id, record_id (TUPLE_MSG (snd item)) = inr id) ->
  forall n st,
    ctl_of (stuck_scan inp items n st) = Normal tt /\
    filter is_long_line (trace_of (stuck_scan inp items n st))
    = map (long_line inp) (filter (overdue 300 inp) items) /\
    forallb is_stdout (trace_of (stuck_scan inp items n st)) = true.
Proof.
  intros U. induction items as [|[fut msg] rest IH]; intros Hid n st.
  - simpl. auto.
  - assert (Hrest : forall item, In item rest ->
                      overdue 300 inp item = true ->
                      exists id, record_id (TUPLE_MSG (snd item)) = inr id)
      by (intros item I; apply Hid; right; exact I).
    destruct (stuck_test_unset inp fut msg n st U) as [No Yes].
    cbn [stuck_scan filter].
    destruct (overdue 300 inp (fut, msg)) eqn:O.
    + destruct (Hid (fut, msg) (or_introl eq_refl) O) as [id Hrec].
      rewrite (bind_run _ _ _ _ _ _ (Yes eq_refl id Hrec)).
      destruct (IH Hrest (S n) st) as (C & F & P).
      destruct (max_workers cfg <=? S n)%nat; msimp;
        cbn [app filter is_long_line forallb is_stdout map andb long_line];
        rewrite ?C, ?F, ?P; auto.
    + rewrite (bind_run _ _ _ _ _ _ (No eq_refl)).
      destruct (IH Hrest n st) as (C & F & P).
      destruct (max_workers cfg <=? n)%nat; msimp;
        cbn [app filter is_long_line forallb is_stdout map andb];
        rewrite ?C, ?F, ?P; auto.
Qed.

(** With LONG_RECORD set in the environment the constant is a [str], and
    the test of line 166 raises [TypeError]. *)
Lemma long_record_check_env_set (inp : IterInput) (st : State) (s : string) :
  env_LONG_RECORD cfg = Some s ->
  long_record_check inp st = (Raise TypeError, st, []).
Proof.
  intros E. unfold long_record_check, long_record, LONG_RECORD.
  rewrite E. reflexivity.
Qed.

(** C6 (amended): the stuck-task scan with LONG_RECORD unset, so that the
    constant is 300.  Provided [loggingID] identifies the record of every
    task the scan flags, the scan completes and prints a long-record line,
    with the age in minutes, for exactly the tasks of the registry that are
    not done and whose age exceeds 300 * 2 seconds, in the registry's order.
    It leaves the state, the registry included, as it was, and does nothing
    but print: no task is cancelled or submitted again. *)
Theorem stuck_task_detection (inp : IterInput) (items : registry) (n : nat)
        (st : State)
        (Henv : env_LONG_RECORD cfg = None)
        (Hid : forall item, In item items -> overdue 300 inp item = true ->
                 exists id, record_id (TUPLE_MSG (snd item)) = inr id) :
  let scan := stuck_scan inp items n st in
  long_record = PyInt 300 /\
  ctl_of scan = Normal tt /\
  state_of scan = st /\
  filter is_long_line (trace_of scan)
  = map (long_line inp) (filter (overdue 300 inp) items) /\
  forallb is_stdout (trace_of scan) = true.
Proof.
  intros scan. unfold scan.
  destruct (stuck_scan_unset inp items Henv Hid n st) as (C & F & P).
  split; [unfold long_record, LONG_RECORD; rewrite Henv; reflexivity|].
  split; [exact C|]. split; [apply stuck_scan_state|]. split; assumption.
Qed.

Lemma harvest_keeps_logCheckTime (c : Q) (inp : IterInput) (fut : handle) :
  preserves (fun s => logCheckTime s = c) (harvest inp fut).
Proof.
  unfold harvest, pop_future. apply preserves_bind.
  - apply preserves_bind_get. intros st H.
    destruct (dict_pop (futures st) fut) as [[m r]|]; msimp; exact H.
  - intros msg. apply preserves_bind;
      [apply preserves_const, handle_result_state|intros _].
    apply preserves_bind; [apply preserves_modify; auto|intros _].
    unfold rate_stats. apply preserves_bind_get. intros st H.
    destruct (messages st mod INTERVAL =? 0); msimp; exact H.
Qed.

Lemma drain_empty (inp : IterInput) (st : State) :
  futures st = [] -> drain inp st = (Normal tt, st, []).
Proof. intros E. unfold drain. rewrite bind_get, E. reflexivity. Qed.

Lemma drain_nonempty (inp : IterInput) (st : State) :
  futures st <> [] ->
  ctl_of (for_each (wait_done inp) (harvest inp) st) = Normal tt ->
  let h := for_each (wait_done inp) (harvest inp) st in
  drain inp st =
  (ctl_of (long_record_check inp (state_of h)),
   state_of (long_record_check inp (state_of h)),
   trace_of h ++ trace_of (long_record_check inp (state_of h))).
Proof.
  intros N C h. unfold drain. rewrite bind_get.
  destruct (futures st) as [|item items]; [contradiction|].
  rewrite (bind_normal _ _ _ tt C). reflexivity.
Qed.

(** C7 (amended): the periodic check, with LONG_RECORD unset.  In a turn
    that starts with an empty registry nothing of it happens, whatever the
    clock says: no statistics, no scan, [logCheckTime] as it was.  In a turn
    that starts with a non-empty registry and harvests its completions
    without a fatal failure: if the clock reading exceeds [logCheckTime]
    plus 300 / 2, [logCheckTime] becomes that reading, the engine's
    statistics are printed and the stuck-task scan runs over the registry;
    otherwise none of this happens. *)
Theorem periodic_check (inp : IterInput) (st : State)
        (Henv : env_LONG_RECORD cfg = None) :
  let h := for_each (wait_done inp) (harvest inp) st in
  let scan := stuck_scan inp (futures (state_of h)) 0
                (set_logCheckTime (nowTime inp) (state_of h)) in
  (futures st = [] -> drain inp st = (Normal tt, st, [])) /\
  (futures st <> [] -> ctl_of h = Normal tt ->
   (logCheckTime st + 300 / 2 < nowTime inp)%Q ->
   drain inp st =
   (ctl_of scan, state_of scan,
    trace_of h ++ Stdout (Stats (stats inp)) :: trace_of scan) /\
   logCheckTime (state_of (drain inp st)) = nowTime inp) /\
  (futures st <> [] -> ctl_of h = Normal tt ->
   (nowTime inp <= logCheckTime st + 300 / 2)%Q ->
   drain inp st = (Normal tt, state_of h, trace_of h)).
Proof.
  intros h scan.
  assert (L : logCheckTime (state_of h) = logCheckTime st).
  { apply (preserves_for_each (fun s => logCheckTime s = logCheckTime st)).
    - intros fut. apply harvest_keeps_logCheckTime.
    - reflexivity. }
  assert (K : forall b,
             Qltb (logCheckTime st + 300 / 2) (nowTime inp) = b ->
             long_record_check inp (state_of h) =
             if b then
               (ctl_of scan, state_of scan,
                Stdout (Stats (stats inp)) :: trace_of scan)
             else (Normal tt, state_of h, [])).
  { intros b B. unfold long_record_check, long_record, LONG_RECORD.
    rewrite Henv. cbn [getenv py_truediv lift]. rewrite bind_ret, bind_get.
    rewrite L.
    change (inject_Z 300 / inject_Z 2)%Q with (300 / 2)%Q. rewrite B.
    destruct b; [|reflexivity]. msimp. reflexivity. }
  split; [apply drain_empty|]. split.
  - intros N C T. rewrite (drain_nonempty inp st N C). fold h.
    apply Qltb_lt in T. rewrite (K true T). cbn [ctl_of state_of trace_of fst snd].
    split; [reflexivity|]. unfold scan. rewrite stuck_scan_state. reflexivity.
  - intros N C T. rewrite (drain_nonempty inp st N C). fold h.
    apply Qltb_ge in T. rewrite (K false T). cbn [trace_of snd].
    rewrite app_nil_r. reflexivity.
Qed.

(** ** The shutdown *)


Lemma still_processing_ctl (sd : ShutdownInput) (items : registry)
      (st : State) :
  ctl_of (still_processing sd items st) = Normal tt \/
  exists e, ctl_of (still_processing sd items st) = Raise e.
Proof.
  induction items as [|[fut msg] rest IH]; [left; reflexivity|].
  cbn [still_processing].
  assert (R : (exists t, still_report sd fut msg st = (Normal tt, st, t)) \/
              exists e, still_report sd fut msg st = (Raise e, st, [])).
  { unfold still_report. destruct (negb (shutdown_done sd fut)).
    - destruct (record_id (TUPLE_MSG msg)) as [e|id]; cbn [lift].
      + right. exists e. reflexivity.
      + left. eexists. msimp. reflexivity.
    - left. eexists. reflexivity. }
  destruct R as [[t E]|[e E]].
  - rewrite (bind_run _ _ _ _ _ _ E). exact IH.
  - right. exists e. unfold bind. rewrite E. reflexivity.
Qed.

Lemma shutdown_handler_trace (err : exn) (sd : ShutdownInput) (st : State) :
  let sp := still_processing sd (futures st) st in
  shutdown_handler err sd st =
  match ctl_of sp with
  | Normal _ =>
      (Exit (-1), st,
       Stderr (ShuttingDown err) :: Stderr Traceback
         :: trace_of sp ++ [ExecutorShutdown])
  | c =>
      (c, st, Stderr (ShuttingDown err) :: Stderr Traceback :: trace_of sp)
  end.
Proof.
  intros sp. subst sp. unfold shutdown_handler. msimp.
  pose proof (still_processing_state sd (futures st) st) as S.
  unfold bind.
  destruct (still_processing sd (futures st) st) as [[c s] t].
  cbn in S. subst s. destruct c; reflexivity.
Qed.

Lemma shutdown_handler_ctl (err : exn) (sd : ShutdownInput) (st : State) :
  ctl_of (shutdown_handler err sd st) = Exit (-1) \/
  exists e, ctl_of (shutdown_handler err sd st) = Raise e.
Proof.
  rewrite shutdown_handler_trace.
  destruct (still_processing_ctl sd (futures st) st) as [C|[e C]];
    rewrite C; [left|right; exists e]; reflexivity.
Qed.


(** The program once the loop has raised: the handler runs in the state the
    loop was left in, the [with] block is left, and the status is -1. *)
Lemma program_after_raise (start : Q) (inps : list IterInput)
      (sd : ShutdownInput) (err : exn) (st1 : State) (t1 : list event) :
  main_loop inps (initial_state start) = (Raise err, st1, t1) ->
  let hd := shutdown_handler err sd st1 in
  let t := Stdout (Threads (max_workers cfg)) :: t1 ++ trace_of hd in
  program start inps sd =
  match ctl_of hd with
  | Exit n => (Exit n, st1, t ++ [ExecutorShutdown])
  | Raise e =>
      (Exit (-1), st1,
       (t ++ [ExecutorShutdown]) ++ [Stderr (ErrorText e); Stderr Traceback])
  | c => (c, st1, t)
  end.
Proof.
  intros H hd t. unfold program, with_executor, print.
  rewrite bind_emit. unfold guarded_loop. rewrite H.
  pose proof (shutdown_handler_state err sd st1) as S.
  subst t hd. destruct (shutdown_handler err sd st1) as [[c s] tr].
  cbn in S. subst s. cbn [ctl_of state_of trace_of fst snd].
  destruct c; reflexivity.
Qed.



(** ** Identifying a record *)

(** C9: what [loggingID] does with the two shapes of record.  With truthy
    DATA_SOURCE and RECORD_ID it returns the two joined by " : ".  Without
    them and with a truthy UMF_PROC, a repair message, it returns nothing:
    the subscript names an unbound [PARAMS] and it raises [NameError]. *)
Theorem loggingID_shapes (items : list (string * json)) :
  (truthy (dict_get items "DATA_SOURCE") = true ->
   truthy (dict_get items "RECORD_ID") = true ->
   loggingID (JObj items)
   = inr (fstring_value (dict_get items "DATA_SOURCE") ++ " : "
          ++ fstring_value (dict_get items "RECORD_ID"))%string) /\
  (truthy (dict_get items "DATA_SOURCE")
   && truthy (dict_get items "RECORD_ID") = false ->
   truthy (dict_get items "UMF_PROC") = true ->
   loggingID (JObj items) = inl (NameError "PARAMS")).
Proof.
  unfold loggingID. split.
  - intros -> ->. reflexivity.
  - intros -> ->. reflexivity.
Qed.

(** ** Further properties of the loop *)

(** *** How the loop and the program can end *)

Lemma never_bind {A B} (e : ending) (m : M A) (k : A -> M B) :
  e <> EndsNormal ->
  never e m -> (forall a, never e (k a)) -> never e (bind m k).
Proof.
  intros N Hm Hk st. specialize (Hm st). unfold bind, ctl_of in *.
  destruct (m st) as [[c s1] t1]; simpl in Hm.
  destruct c; simpl; try exact Hm.
  specialize (Hk a s1). destruct (k a s1) as [[c2 s2] t2]. exact Hk.
Qed.

Lemma never_for_each {A} (e : ending) (l : list A) (body : A -> M unit) :
  e <> EndsNormal ->
  (forall x, never e (body x)) -> never e (for_each l body).
Proof.
  intros N H. induction l as [|x l IH]; simpl.
  - intros st. simpl. congruence.
  - apply never_bind; auto.
Qed.

Lemma harvest_never (e : ending) (inp : IterInput) (fut : handle) :
  e = EndsContinue \/ e = EndsExit -> never e (harvest inp fut).
Proof.
  intros E.
  assert (N : e <> EndsNormal) by (destruct E; subst; discriminate).
  assert (R : e <> EndsRaise) by (destruct E; subst; discriminate).
  unfold harvest, pop_future, handle_result, rate_stats.
  apply never_bind; [exact N| |].
  - intros st. rewrite bind_get.
    destruct (dict_pop (futures st) fut) as [[m r]|]; msimp; simpl;
      congruence.
  - intros msg. apply never_bind; [exact N| |intros _].
    + destruct (fut_result inp fut) as [[text|]|[code| | | | | | |]];
        try (intros st; simpl; congruence).
      * destruct (String.eqb text ""); intros st; simpl; congruence.
      * destruct (code =? 7426); intros st; simpl; congruence.
    + apply never_bind; [exact N|intros st; simpl; congruence|intros _].
      intros st. rewrite bind_get.
      destruct (messages st mod INTERVAL =? 0); msimp; simpl; congruence.
Qed.

Lemma stuck_scan_never (e : ending) (inp : IterInput) (items : registry)
      (n : nat) :
  e = EndsContinue \/ e = EndsExit -> never e (stuck_scan inp items n).
Proof.
  intros E.
  assert (N : e <> EndsNormal) by (destruct E; subst; discriminate).
  assert (R : e <> EndsRaise) by (destruct E; subst; discriminate).
  revert n. induction items as [|[fut msg] rest IH]; intros n; simpl.
  - intros st. simpl. congruence.
  - apply never_bind; [exact N| |intros n'].
    + unfold stuck_test.
      destruct (negb (fut_done inp fut)); [|intros st; simpl; congruence].
      apply never_bind; [exact N| |intros long].
      * destruct (py_float_gt _ _); intros st; simpl; congruence.
      * destruct long; [|intros st; simpl; congruence].
        apply never_bind; [exact N| |intros id].
        -- destruct (record_id _); intros st; simpl; congruence.
        -- apply never_bind; [exact N| |intros _];
             intros st; simpl; congruence.
    + apply never_bind; [exact N| |intros _; apply IH].
      destruct (max_workers cfg <=? n')%nat; intros st; simpl; congruence.
Qed.

Lemma drain_never (e : ending) (inp : IterInput) :
  e = EndsContinue \/ e = EndsExit -> never e (drain inp).
Proof.
  intros E.
  assert (N : e <> EndsNormal) by (destruct E; subst; discriminate).
  assert (R : e <> EndsRaise) by (destruct E; subst; discriminate).
  unfold drain. intros st. rewrite bind_get.
  destruct (futures st); [simpl; congruence|].
  apply never_bind; [exact N| |intros _].
  - apply never_for_each; [exact N|]. intros fut.
    apply harvest_never. exact E.
  - unfold long_record_check. apply never_bind; [exact N| |intros half].
    + destruct (py_truediv _ _); intros s; simpl; congruence.
    + intros s. rewrite bind_get.
      destruct (Qltb (logCheckTime s + half) (nowTime inp));
        [|simpl; congruence].
      msimp. apply stuck_scan_never. exact E.
Qed.

Lemma fill_loop_never_exit (inp : IterInput) (fuel : nat) :
  forall k, never EndsExit (fill_loop inp fuel k).
Proof.
  induction fuel as [|fuel IH]; intros k st; simpl; rewrite bind_get.
  - destruct (List.length (futures st) <? max_workers cfg)%nat;
      simpl; discriminate.
  - destruct (List.length (futures st) <? max_workers cfg)%nat;
      [|simpl; discriminate].
    rewrite bind_emit. cbn [ctl_of fst].
    destruct (redo inp k) as [err|t|msg t].
    + simpl. discriminate.
    + msimp. simpl. discriminate.
    + rewrite (bind_run _ _ _ _ _ _ (submit_run msg t st)).
      cbn [ctl_of fst]. apply IH.
Qed.

Lemma iteration_never_exit (inp : IterInput) : never EndsExit (iteration inp).
Proof.
  unfold iteration. apply never_bind; [discriminate| |intros _].
  - apply drain_never. right. reflexivity.
  - unfold govern_and_fill. intros st. rewrite bind_get.
    destruct (Qltb (govern inp) 0); [simpl; discriminate|].
    destruct (max_workers cfg <=? List.length (futures st))%nat;
      [simpl; discriminate|].
    apply never_bind; [discriminate| |intros _].
    + destruct (Qltb 0 (govern inp)); intros s; simpl; discriminate.
    + unfold pause_and_fill. intros s. rewrite bind_get.
      apply never_bind; [discriminate| |intros _].
      * destruct (negb (Qeq_bool (empty_pause s) 0));
          [|intros s'; simpl; discriminate].
        destruct (Qltb (pause_clock inp) (empty_pause s));
          intros s'; simpl; discriminate.
      * intros s'. rewrite bind_get. apply fill_loop_never_exit.
Qed.

(** From a state whose futures the executor knows, the loop is either
    still running after the given turns or has raised. *)
Lemma main_loop_ends (inps : list IterInput) :
  forall st,
    fresh st ->
    ctl_of (main_loop inps st) = Normal tt \/
    exists err, ctl_of (main_loop inps st) = Raise err.
Proof.
  unfold main_loop. induction inps as [|inp inps IH]; intros st F.
  - left. reflexivity.
  - cbn [for_each].
    destruct (turn_enough_fuel inp st F) as [C Ft].
    pose proof (iteration_never_exit inp st) as X.
    unfold turn, bind, ctl_of, state_of in *.
    destruct (iteration inp st) as [[c s1] t1]; simpl in *.
    destruct c as [[]| |err|n|]; simpl in *;
      try (exfalso; apply X; reflexivity);
      try (exfalso; apply C; reflexivity).
    + specialize (IH s1 Ft).
      destruct (for_each inps _ s1) as [[c2 s2] t2]. exact IH.
    + specialize (IH s1 Ft).
      destruct (for_each inps _ s1) as [[c2 s2] t2]. exact IH.
    + right. exists err. reflexivity.
Qed.

(** X2: the only way out of the loop is the fatal path.  Whatever the
    inputs, either the loop is still running after the given turns, the
    executor has not been asked to shut down and the program has printed
    the thread count and what the loop did; or the loop has raised and the
    program exits with status -1. *)
Theorem program_outcomes (start : Q) (inps : list IterInput)
        (sd : ShutdownInput) :
  (exists s t,
      main_loop inps (initial_state start) = (Normal tt, s, t) /\
      program start inps sd
      = (Normal tt, s, Stdout (Threads (max_workers cfg)) :: t)) \/
  (exists err,
      ctl_of (main_loop inps (initial_state start)) = Raise err /\
      ctl_of (program start inps sd) = Exit (-1)).
Proof.
  assert (F : fresh (initial_state start)) by (intros key I; contradiction).
  destruct (main_loop_ends inps (initial_state start) F) as [C|[err C]].
  - left. destruct (main_loop inps (initial_state start)) as [[c s] t] eqn:E.
    cbn in C. subst c. exists s, t. split; [reflexivity|].
    unfold program, with_executor, print. rewrite bind_emit.
    unfold guarded_loop. rewrite E. reflexivity.
  - right. exists err. split; [exact C|].
    destruct (main_loop inps (initial_state start)) as [[c s] t] eqn:E.
    cbn in C. subst c.
    rewrite (program_after_raise start inps sd err s t E). cbv zeta.
    destruct (shutdown_handler_ctl err sd s) as [H|[e H]]; rewrite H;
      reflexivity.
Qed.

(** *** What the parts of the body leave alone *)

Lemma harvest_frame (P : State -> Prop) (inp : IterInput) (fut : handle) :
  (forall d s, P s -> P (set_futures d s)) ->
  (forall t s, P s -> P (set_prevTime t s)) ->
  (forall s, P s -> P (set_messages (messages s + 1) s)) ->
  preserves P (harvest inp fut).
Proof.
  intros Hf Hp Hm. unfold harvest, pop_future. apply preserves_bind.
  - apply preserves_bind_get. intros st H.
    destruct (dict_pop (futures st) fut) as [[m r]|]; msimp;
      [apply Hf|]; exact H.
  - intros msg. apply preserves_bind;
      [apply preserves_const, handle_result_state|intros _].
    apply preserves_bind; [apply preserves_modify; exact Hm|intros _].
    unfold rate_stats. apply preserves_bind_get. intros st H.
    destruct (messages st mod INTERVAL =? 0); msimp; [apply Hp|]; exact H.
Qed.

Lemma long_record_check_frame (P : State -> Prop) (inp : IterInput) :
  (forall t s, P s -> P (set_logCheckTime t s)) ->
  preserves P (long_record_check inp).
Proof.
  intros Hl. unfold long_record_check.
  apply preserves_bind; [apply preserves_lift|intros half].
  apply preserves_bind_get. intros st H.
  destruct (Qltb (logCheckTime st + half) (nowTime inp)); [|exact H].
  msimp. rewrite stuck_scan_state. apply Hl. exact H.
Qed.

Lemma drain_frame (P : State -> Prop) (inp : IterInput) :
  (forall d s, P s -> P (set_futures d s)) ->
  (forall t s, P s -> P (set_prevTime t s)) ->
  (forall s, P s -> P (set_messages (messages s + 1) s)) ->
  (forall t s, P s -> P (set_logCheckTime t s)) ->
  preserves P (drain inp).
Proof.
  intros Hf Hp Hm Hl. unfold drain. apply preserves_bind_get. intros st H.
  destruct (futures st) eqn:E; [exact H|].
  apply preserves_bind; [| |exact H].
  - apply preserves_for_each. intros fut. apply harvest_frame; assumption.
  - intros _. apply long_record_check_frame. exact Hl.
Qed.

Lemma fill_loop_frame (P : State -> Prop) (inp : IterInput) (fuel : nat) :
  (forall d s, P s -> P (set_futures d s)) ->
  (forall t s, P s -> P (set_empty_pause t s)) ->
  (forall n s, P s -> P (set_submitted n s)) ->
  forall k, preserves P (fill_loop inp fuel k).
Proof.
  intros Hf He Hs. induction fuel as [|fuel IH]; intros k; simpl;
    apply preserves_bind_get; intros st H.
  - destruct (List.length (futures st) <? max_workers cfg)%nat; exact H.
  - destruct (List.length (futures st) <? max_workers cfg)%nat; [|exact H].
    rewrite state_of_bind_emit.
    destruct (redo inp k) as [err|t|msg t].
    + exact H.
    + msimp. apply He. exact H.
    + rewrite (bind_run _ _ _ _ _ _ (submit_run msg t st)).
      cbn [state_of fst snd]. apply IH. apply Hs, Hf. exact H.
Qed.

Lemma iteration_stable (P : State -> Prop) (inp : IterInput) :
  stable P -> preserves P (iteration inp).
Proof.
  intros (Hf & He & Hp & Hl & Hs & Hm). unfold iteration.
  apply preserves_bind; [apply drain_frame; assumption|intros _].
  unfold govern_and_fill. apply preserves_bind_get. intros st H.
  destruct (Qltb (govern inp) 0); [exact H|].
  destruct (max_workers cfg <=? List.length (futures st))%nat; [exact H|].
  apply preserves_bind; [| |exact H].
  - destruct (Qltb 0 (govern inp)); auto with frame.
  - intros _. unfold pause_and_fill. apply preserves_bind_get.
    intros s Hs'. apply preserves_bind; [| |exact Hs'].
    + destruct (negb (Qeq_bool (empty_pause s) 0)); [|auto with frame].
      destruct (Qltb (pause_clock inp) (empty_pause s)); [auto with frame|].
      apply preserves_modify. apply He.
    + intros _. apply preserves_bind_get. intros s' H'.
      apply fill_loop_frame; assumption.
Qed.

Lemma main_loop_stable (P : State -> Prop) (inps : list IterInput) :
  stable P -> preserves P (main_loop inps).
Proof.
  intros S. apply preserves_for_each. intros inp st H.
  rewrite turn_state. apply iteration_stable; assumption.
Qed.

(** X8: the count of completions never goes down.  Over any turns from any
    state, and over the whole program, the counter ends no lower than it
    started; the program's counter is never negative. *)
Theorem messages_never_decrease (inps : list IterInput) (st : State) :
  messages st <= messages (state_of (main_loop inps st)) /\
  (forall start sd, 0 <= messages (state_of (program start inps sd))).
Proof.
  assert (S : forall c, stable (fun s => c <= messages s)).
  { intros c. unfold stable. repeat split; intros; simpl; try assumption.
    lia. }
  split.
  - apply (main_loop_stable _ inps (S (messages st))). lia.
  - intros start sd. rewrite program_state.
    apply (main_loop_stable _ inps (S 0)). reflexivity.
Qed.

(** *** Every submission is accounted for *)

Lemma tallies_bind {A B} (m : M A) (k : A -> M B) :
  tallies m -> (forall a, tallies (k a)) -> tallies (bind m k).
Proof.
  intros Hm Hk st. specialize (Hm st).
  unfold bind, state_of, trace_of in *.
  destruct (m st) as [[c s1] t1]; simpl in Hm.
  destruct c; simpl; try exact Hm.
  specialize (Hk a s1). unfold state_of, trace_of in Hk.
  destruct (k a s1) as [[c2 s2] t2]. simpl in *.
  unfold submit_count in *. rewrite filter_app, length_app. lia.
Qed.

Lemma tallies_for_each {A} (l : list A) (body : A -> M unit) :
  (forall x, tallies (body x)) -> tallies (for_each l body).
Proof.
  intros H. induction l as [|x l IH]; simpl.
  - intros st. reflexivity.
  - apply tallies_bind; auto.
Qed.

Ltac tally :=
  repeat first
    [ progress intros
    | apply tallies_bind
    | match goal with
      | |- tallies (if ?b then _ else _) => destruct b
      | |- tallies (match ?x with _ => _ end) => destruct x
      | |- tallies _ => intros ?; reflexivity
      end ].

Lemma harvest_tallies (inp : IterInput) (fut : handle) :
  tallies (harvest inp fut).
Proof.
  unfold harvest, pop_future, handle_result, rate_stats. apply tallies_bind.
  - intros st. rewrite bind_get.
    destruct (dict_pop (futures st) fut) as [[m r]|]; msimp; reflexivity.
  - intros msg. apply tallies_bind; [tally|intros _].
    apply tallies_bind; [tally|intros _].
    intros st. rewrite bind_get.
    destruct (messages st mod INTERVAL =? 0); msimp; reflexivity.
Qed.

Lemma stuck_scan_tallies (inp : IterInput) (items : registry) (n : nat) :
  tallies (stuck_scan inp items n).
Proof.
  revert n. induction items as [|[fut msg] rest IH]; intros n; simpl.
  - intros st. reflexivity.
  - apply tallies_bind; [unfold stuck_test, lift; tally|intros n'].
    apply tallies_bind; [tally|intros _; apply IH].
Qed.

Lemma drain_tallies (inp : IterInput) : tallies (drain inp).
Proof.
  unfold drain. intros st. rewrite bind_get.
  destruct (futures st); [reflexivity|].
  apply tallies_bind.
  - apply tallies_for_each. intros fut. apply harvest_tallies.
  - intros _. unfold long_record_check. apply tallies_bind.
    + unfold lift. tally.
    + intros half s. rewrite bind_get.
      destruct (Qltb (logCheckTime s + half) (nowTime inp));
        [|reflexivity].
      rewrite bind_modify.
      pose proof (tallies_bind (print (Stats (stats inp)))
                    (fun _ => stuck_scan inp (futures s) 0)) as T.
      refine (T _ _ (set_logCheckTime (nowTime inp) s));
        [intros ?; reflexivity|intros _; apply stuck_scan_tallies].
Qed.

Lemma fill_loop_tallies (inp : IterInput) (fuel : nat) :
  forall k, tallies (fill_loop inp fuel k).
Proof.
  induction fuel as [|fuel IH]; intros k st; simpl; rewrite bind_get.
  - destruct (List.length (futures st) <? max_workers cfg)%nat; reflexivity.
  - destruct (List.length (futures st) <? max_workers cfg)%nat;
      [|reflexivity].
    rewrite bind_emit. cbn [state_of trace_of fst snd].
    destruct (redo inp k) as [err|t|msg t].
    + reflexivity.
    + msimp. reflexivity.
    + rewrite (bind_run _ _ _ _ _ _ (submit_run msg t st)).
      cbn [state_of trace_of fst snd]. rewrite (IH (S k)).
      unfold submit_count. cbn. lia.
Qed.

Lemma iteration_tallies (inp : IterInput) : tallies (iteration inp).
Proof.
  unfold iteration. apply tallies_bind; [apply drain_tallies|intros _].
  unfold govern_and_fill. intros st. rewrite bind_get.
  destruct (Qltb (govern inp) 0); [reflexivity|].
  destruct (max_workers cfg <=? List.length (futures st))%nat;
    [reflexivity|].
  apply tallies_bind; [tally|intros _].
  unfold pause_and_fill. intros s. rewrite bind_get.
  apply tallies_bind; [tally|intros _].
  intros s'. rewrite bind_get. apply fill_loop_tallies.
Qed.

Lemma main_loop_tallies (inps : list IterInput) : tallies (main_loop inps).
Proof.
  apply tallies_for_each. intros inp st.
  rewrite turn_state, turn_trace. apply iteration_tallies.
Qed.

Lemma guards_bind {X Y} (I A : State -> Prop) (m : M X) (k : X -> M Y) :
  (forall s, I s -> A s) ->
  guards I A m -> (forall a, guards I A (k a)) -> guards I A (bind m k).
Proof.
  intros IA Hm Hk st H. specialize (Hm st H).
  unfold bind, ctl_of, state_of in *.
  destruct (m st) as [[c s1] t1]; simpl in Hm. destruct Hm as [Ha Hi].
  destruct c; simpl; try (split; [exact Ha|auto]).
  specialize (Hk a s1 Hi). destruct (k a s1) as [[c2 s2] t2]. exact Hk.
Qed.

Lemma guards_for_each {X} (I A : State -> Prop) (l : list X)
      (body : X -> M unit) :
  (forall s, I s -> A s) ->
  (forall x, guards I A (body x)) -> guards I A (for_each l body).
Proof.
  intros IA H. induction l as [|x l IH]; simpl.
  - intros st Hi. split; [apply IA|]; exact Hi.
  - apply guards_bind; auto.
Qed.

Lemma guards_of_preserves {X} (I A : State -> Prop) (m : M X) :
  (forall s, I s -> A s) -> preserves I m -> guards I A m.
Proof.
  intros IA P st H. specialize (P st H). split; [apply IA; exact P|].
  destruct (ctl_of (m st)); auto.
Qed.

Lemma harvest_missing (inp : IterInput) (fut : handle) (st : State) :
  dict_pop (futures st) fut = None ->
  harvest inp fut st = (Raise KeyError, st, []).
Proof.
  intros P. unfold harvest, pop_future.
  assert (E : forall k : task -> M unit,
             bind (st0 <- get ;;
                   match dict_pop (futures st0) fut with
                   | Some (msg0, rest0) =>
                       modify (set_futures rest0) ;; ret msg0
                   | None => raise KeyError
                   end) k st = (Raise KeyError, st, [])).
  { intros k. unfold bind at 1. rewrite bind_get, P. reflexivity. }
  apply E.
Qed.

Lemma balanced_nearly (s : State) :
  balanced s /\ fresh s -> nearly_balanced s.
Proof. unfold balanced, nearly_balanced. intros [B _]. lia. Qed.

Lemma harvest_guards (inp : IterInput) (fut : handle) :
  guards (fun s => balanced s /\ fresh s) nearly_balanced (harvest inp fut).
Proof.
  intros st [B F].
  assert (Sub : submitted (state_of (harvest inp fut st)) = submitted st).
  { apply (harvest_frame (fun s => submitted s = submitted st));
      intros; simpl; auto. }
  destruct (dict_pop (futures st) fut) as [[msg rest]|] eqn:P.
  - pose proof (dict_pop_length _ _ _ _ P) as L.
    destruct (recoverable (fut_result inp fut)) eqn:R.
    + destruct (harvest_recoverable inp fut st msg rest P R) as (C & Mm & Fu).
      assert (Bal : balanced (state_of (harvest inp fut st))).
      { unfold balanced, in_hand in *. rewrite Sub, Mm, Fu. lia. }
      assert (Fr : fresh (state_of (harvest inp fut st))).
      { intros key I. rewrite Sub. apply F. rewrite Fu in I.
        apply (dict_pop_keys _ _ _ _ key P). exact I. }
      split; [apply balanced_nearly; split; assumption|].
      rewrite C. split; assumption.
    + destruct (harvest_fatal inp fut st msg rest P R) as (e & _ & E).
      rewrite E. cbn [ctl_of state_of fst snd]. split; [|exact I].
      unfold nearly_balanced, balanced, in_hand in *. simpl. lia.
  - rewrite (harvest_missing inp fut st P). cbn [ctl_of state_of fst snd].
    split; [|exact I]. apply balanced_nearly. split; assumption.
Qed.

Lemma fill_loop_guards (inp : IterInput) (fuel : nat) :
  forall k,
    guards (fun s => balanced s /\ fresh s) nearly_balanced
           (fill_loop inp fuel k).
Proof.
  induction fuel as [|fuel IH]; intros k st H; simpl; rewrite bind_get.
  - destruct (List.length (futures st) <? max_workers cfg)%nat;
      (split; [apply balanced_nearly; exact H|first [exact H|exact I]]).
  - destruct (List.length (futures st) <? max_workers cfg)%nat;
      [|split; [apply balanced_nearly|]; exact H].
    rewrite bind_emit. cbn [ctl_of state_of fst snd].
    destruct (redo inp k) as [err|t|msg t].
    + split; [apply balanced_nearly; exact H|exact I].
    + msimp. split; [apply balanced_nearly|]; exact H.
    + rewrite (bind_run _ _ _ _ _ _ (submit_run msg t st)).
      cbn [ctl_of state_of fst snd]. apply IH.
      destruct H as [B F].
      assert (N : ~ In (submitted st) (map fst (futures st)))
        by (intros J; apply F in J; lia).
      split.
      * unfold balanced, in_hand in *. simpl.
        rewrite (dict_set_new _ _ _ N), length_app. simpl. lia.
      * intros key. cbn [futures submitted set_submitted set_futures].
        rewrite (dict_set_new _ _ _ N), map_app, in_app_iff. simpl.
        intros [J|[<-|[]]]; [apply F in J|]; lia.
Qed.

Lemma iteration_guards (inp : IterInput) :
  guards (fun s => balanced s /\ fresh s) nearly_balanced (iteration inp).
Proof.
  pose proof balanced_nearly as BN.
  unfold iteration. apply guards_bind; [exact BN| |intros _].
  - unfold drain. intros st H. rewrite bind_get.
    destruct (futures st) eqn:E.
    + split; [apply BN|]; exact H.
    + refine (guards_bind _ _ _ _ BN _ _ st H).
      * apply guards_for_each; [exact BN|]. intros fut.
        apply harvest_guards.
      * intros _. apply guards_of_preserves; [exact BN|].
        apply long_record_check_frame. intros t s Hs. exact Hs.
  - unfold govern_and_fill. intros st H. rewrite bind_get.
    destruct (Qltb (govern inp) 0); [split; [apply BN|]; exact H|].
    destruct (max_workers cfg <=? List.length (futures st))%nat;
      [split; [apply BN|]; exact H|].
    refine (guards_bind _ _ _ _ BN _ _ st H).
    + apply guards_of_preserves; [exact BN|].
      destruct (Qltb 0 (govern inp)); auto with frame.
    + intros _. unfold pause_and_fill. intros s Hs. rewrite bind_get.
      refine (guards_bind _ _ _ _ BN _ _ s Hs).
      * destruct (negb (Qeq_bool (empty_pause s) 0)).
        -- destruct (Qltb (pause_clock inp) (empty_pause s)).
           ++ intros s' H'. split; [apply BN|]; exact H'.
           ++ apply guards_of_preserves; [exact BN|].
              apply preserves_modify. intros s' H'. exact H'.
        -- apply guards_of_preserves; [exact BN|]. auto with frame.
      * intros _ s' H'. rewrite bind_get. apply fill_loop_guards. exact H'.
Qed.

Lemma main_loop_guards (inps : list IterInput) :
  guards (fun s => balanced s /\ fresh s) nearly_balanced (main_loop inps).
Proof.
  apply guards_for_each; [exact balanced_nearly|]. intros inp st H.
  destruct (iteration_guards inp st H) as [A Hi].
  rewrite turn_state. split; [exact A|].
  unfold turn, ctl_of, state_of in *.
  destruct (iteration inp st) as [[c s] t]; simpl in *.
  destruct c; exact Hi.
Qed.

(** X1: every submission is accounted for.  After any turns from the start,
    the number of submissions the trace records is the executor's count of
    futures; the completions counted plus the tasks in flight fall short of
    it by at most one; and they equal it while the loop is still running,
    so that a future is missing from the count only after the failure that
    ends the loop. *)
Theorem every_submission_accounted (start : Q) (inps : list IterInput) :
  let run := main_loop inps (initial_state start) in
  let s := state_of run in
  submit_count (trace_of run) = submitted s /\
  messages s + Z.of_nat (List.length (futures s)) <= Z.of_nat (submitted s)
  /\
  Z.of_nat (submitted s)
  <= messages s + Z.of_nat (List.length (futures s)) + 1 /\
  (ctl_of run = Normal tt ->
   Z.of_nat (submitted s)
   = messages s + Z.of_nat (List.length (futures s))).
Proof.
  intros run s.
  assert (H0 : balanced (initial_state start) /\ fresh (initial_state start)).
  { split; [reflexivity|]. intros key I. contradiction. }
  destruct (main_loop_guards inps (initial_state start) H0) as [A Hi].
  fold run in A, Hi. fold s in A, Hi.
  pose proof (main_loop_tallies inps (initial_state start)) as T.
  fold run in T. fold s in T. simpl in T.
  unfold nearly_balanced, in_hand in A.
  split; [lia|]. split; [lia|]. split; [lia|].
  intros C. rewrite C in Hi. destruct Hi as [B _]. exact B.
Qed.

(** *** What the fill loop submits *)

Lemma fill_loop_run (inp : IterInput) (fuel : nat) :
  forall k st,
    fresh st ->
    fuel = (max_workers cfg - List.length (futures st))%nat ->
    let recs := fetched inp fuel k in
    let run := fill_loop inp fuel k st in
    futures (state_of run) = futures st ++ enlist (submitted st) recs /\
    submissions (trace_of run)
    = map (fun item => (fst item, TUPLE_MSG (snd item)))
          (enlist (submitted st) recs) /\
    (List.length recs = fuel -> ctl_of run = Normal tt).
Proof.
  induction fuel as [|fuel IH]; intros k st F L; cbv zeta; simpl;
    rewrite bind_get.
  - destruct (Nat.ltb_spec (List.length (futures st)) (max_workers cfg));
      [lia|].
    cbn. rewrite app_nil_r. auto.
  - destruct (Nat.ltb_spec (List.length (futures st)) (max_workers cfg));
      [|lia].
    rewrite bind_emit. cbn [ctl_of state_of trace_of fst snd].
    destruct (redo inp k) as [err|t|msg t].
    + cbn. rewrite app_nil_r. repeat split; discriminate.
    + msimp. cbn. rewrite app_nil_r. repeat split; discriminate.
    + rewrite (bind_run _ _ _ _ _ _ (submit_run msg t st)).
      cbn [ctl_of state_of trace_of fst snd].
      assert (N : ~ In (submitted st) (map fst (futures st)))
        by (intros J; apply F in J; lia).
      set (st2 := set_submitted (S (submitted st))
                    (set_futures (dict_set (futures st) (submitted st)
                                           (msg, t)) st)).
      assert (E2 : futures st2 = futures st ++ [(submitted st, (msg, t))])
        by (apply dict_set_new; exact N).
      assert (F2 : fresh st2).
      { intros key. rewrite E2, map_app, in_app_iff. simpl.
        intros [J|[<-|[]]]; [apply F in J|]; lia. }
      assert (L2 : fuel = (max_workers cfg - List.length (futures st2))%nat)
        by (rewrite E2, length_app; simpl; lia).
      destruct (IH (S k) st2 F2 L2) as (Hf & Hs & Hc). cbv zeta in *.
      split; [|split].
      * rewrite Hf, E2, <- app_assoc. reflexivity.
      * cbn [submissions flat_map app]. fold (submissions
          (trace_of (fill_loop inp fuel (S k) st2))).
        rewrite Hs. reflexivity.
      * intros Hl. apply Hc. simpl in Hl. lia.
Qed.

Lemma enlist_snd (recs : list task) :
  forall first, map snd (enlist first recs) = recs.
Proof.
  unfold enlist. induction recs as [|r recs IH]; intros first; simpl.
  - reflexivity.
  - rewrite IH. reflexivity.
Qed.

(** X3: what the fill loop submits.  From a state whose futures the
    executor knows, with room for [room] more tasks, the fill loop appends
    to the registry the records the engine hands out until it hands out
    none or the room is used up, in the order fetched, each with its text
    as fetched and its clock reading, under consecutive new futures; the
    submissions recorded are these and no others.  If the engine hands out
    a record at each of the [room] passes the loop ends normally with the
    registry exactly full. *)
Theorem fill_loop_submits_in_order (inp : IterInput) (st : State)
        (Hfresh : fresh st) :
  let room := (max_workers cfg - List.length (futures st))%nat in
  let recs := fetched inp room 0 in
  let run := fill_loop inp room 0 st in
  futures (state_of run) = futures st ++ enlist (submitted st) recs /\
  submissions (trace_of run)
  = map (fun item => (fst item, TUPLE_MSG (snd item)))
        (enlist (submitted st) recs) /\
  map snd (enlist (submitted st) recs) = recs /\
  (List.length recs = room ->
   ctl_of run = Normal tt /\
   ((List.length (futures st) <= max_workers cfg)%nat ->
    List.length (futures (state_of run)) = max_workers cfg)).
Proof.
  intros room recs run.
  destruct (fill_loop_run inp room 0 st Hfresh eq_refl) as (Hf & Hs & Hc).
  cbv zeta in *. fold recs run in Hf, Hs, Hc.
  split; [exact Hf|]. split; [exact Hs|]. split.
  - apply enlist_snd.
  - intros Hl. split; [apply Hc; exact Hl|]. intros Hcap.
    rewrite Hf, length_app. unfold enlist.
    rewrite length_combine, length_seq, Nat.min_id, Hl.
    unfold room. lia.
Qed.

(** *** The registry as a dictionary *)

(** X4: storing under a future and popping.  Popping a future just stored
    gives back the task stored: with the registry as it was if the future
    was new, with what popping would have left before if it replaced an
    entry.  And storing under one future does not disturb popping another:
    the same task comes out, and what is left is what storing would give
    after the pop. *)
Theorem registry_set_then_pop (d : registry) (k : handle) (v : task) :
  (~ In k (map fst d) -> dict_pop (dict_set d k v) k = Some (v, d)) /\
  (forall w rest,
      dict_pop d k = Some (w, rest) ->
      dict_pop (dict_set d k v) k = Some (v, rest)) /\
  (forall g,
      g <> k ->
      dict_pop (dict_set d k v) g
      = match dict_pop d g with
        | Some (w, rest) => Some (w, dict_set rest k v)
        | None => None
        end).
Proof.
  split; [|split].
  - induction d as [|[k' w] d IH]; simpl; intros N.
    + rewrite Nat.eqb_refl. reflexivity.
    + destruct (Nat.eqb_spec k' k) as [E|E]; [tauto|]. simpl.
      destruct (Nat.eqb_spec k' k) as [E'|_]; [tauto|].
      rewrite IH by tauto. reflexivity.
  - induction d as [|[k' w'] d IH]; simpl; intros w rest P; [discriminate|].
    destruct (Nat.eqb_spec k' k) as [E|E]; simpl.
    + rewrite (proj2 (Nat.eqb_eq k' k) E). injection P as _ <-.
      reflexivity.
    + rewrite (proj2 (Nat.eqb_neq k' k) E).
      destruct (dict_pop d k) as [[w0 rest0]|]; [|discriminate].
      injection P as <- <-. rewrite (IH w0 rest0 eq_refl). reflexivity.
  - intros g G. induction d as [|[k' w] d IH]; simpl.
    + rewrite (proj2 (Nat.eqb_neq k g)) by congruence. reflexivity.
    + destruct (Nat.eqb_spec k' k) as [E|E]; simpl.
      * subst k'. rewrite (proj2 (Nat.eqb_neq k g)) by congruence.
        destruct (dict_pop d g) as [[w0 rest0]|]; [|reflexivity].
        simpl. rewrite Nat.eqb_refl. reflexivity.
      * destruct (Nat.eqb_spec k' g) as [E'|E']; [reflexivity|].
        rewrite IH. destruct (dict_pop d g) as [[w0 rest0]|]; [|reflexivity].
        simpl. rewrite (proj2 (Nat.eqb_neq k' k) E). reflexivity.
Qed.

(** *** The all-stuck line *)

Ltac eqb_is v :=
  match goal with
  | |- context [Nat.eqb ?a ?b] =>
      replace (Nat.eqb a b) with v
        by (symmetry; first [apply Nat.eqb_eq | apply Nat.eqb_neq];
            simpl in *; lia)
  end.

Lemma stuck_test_unidentified (inp : IterInput) (fut : handle) (msg : task)
      (n : nat) (st : State) (err : exn) :
  env_LONG_RECORD cfg = None ->
  overdue 300 inp (fut, msg) = true ->
  record_id (TUPLE_MSG msg) = inl err ->
  stuck_test inp fut msg n st = (Raise err, st, []).
Proof.
  intros U. unfold stuck_test, overdue, age, long_record, LONG_RECORD.
  rewrite U. cbn [getenv py_mul py_float_gt lift fst snd].
  change (300 * 2) with 600.
  destruct (fut_done inp fut); cbn [negb andb]; [discriminate|].
  intros O R. rewrite bind_ret, O, R. reflexivity.
Qed.

(** The test of one task leaves the count as it is or adds one to it and
    prints no all-stuck line, or it raises having printed nothing. *)
Lemma stuck_test_cases (inp : IterInput) (fut : handle) (msg : task)
      (n : nat) (st : State) :
  (exists n' t, stuck_test inp fut msg n st = (Normal n', st, t) /\
                (n' = n \/ n' = S n) /\ filter is_all_stuck t = []) \/
  (exists e, stuck_test inp fut msg n st = (Raise e, st, [])).
Proof.
  unfold stuck_test.
  destruct (fut_done inp fut); cbn [negb].
  - left. exists n, []. split; [reflexivity|]. split; [left|]; reflexivity.
  - destruct (py_float_gt _ _) as [e|long]; cbn [lift].
    + right. exists e. reflexivity.
    + rewrite bind_ret. destruct long.
      * destruct (record_id (TUPLE_MSG msg)) as [e|id]; cbn [lift].
        -- right. exists e. reflexivity.
        -- left. msimp. eexists _, _. split; [reflexivity|].
           split; [right|]; reflexivity.
      * left. exists n, []. split; [reflexivity|].
        split; [left|]; reflexivity.
Qed.

(** Over no more tasks than the workers not yet counted as stuck, a scan
    prints the all-stuck line once or not at all, whatever the environment
    and the records. *)
Lemma all_stuck_bound (inp : IterInput) (items : registry) :
  forall n st,
    (n + List.length items <= max_workers cfg)%nat ->
    filter is_all_stuck (trace_of (stuck_scan inp items n st)) = [] \/
    filter is_all_stuck (trace_of (stuck_scan inp items n st))
    = [Stdout (AllStuck (max_workers cfg))].
Proof.
  induction items as [|[fut msg] rest IH]; intros n st L.
  - left. reflexivity.
  - cbn [stuck_scan].
    destruct (stuck_test_cases inp fut msg n st)
      as [(n' & t & E & Hn & Ft)|(e & E)].
    + rewrite (bind_run _ _ _ _ _ _ E). cbn [trace_of snd].
      rewrite filter_app, Ft. cbn [app].
      destruct (Nat.leb_spec (max_workers cfg) n') as [C|C].
      * assert (R : rest = [])
          by (destruct rest; [reflexivity|simpl in L; lia]).
        subst rest. right. msimp. reflexivity.
      * msimp. apply IH. simpl in L. lia.
    + left. unfold bind. rewrite E. reflexivity.
Qed.

(** With LONG_RECORD unset, a scan that meets a flagged record [loggingID]
    cannot identify prints no all-stuck line. *)
Lemma all_stuck_none_unidentified (inp : IterInput) (items : registry) :
  env_LONG_RECORD cfg = None ->
  forall n st,
    (n + List.length items <= max_workers cfg)%nat ->
    (exists item err, In item items /\ overdue 300 inp item = true /\
                      record_id (TUPLE_MSG (snd item)) = inl err) ->
    filter is_all_stuck (trace_of (stuck_scan inp items n st)) = [].
Proof.
  intros U. induction items as [|[fut msg] rest IH];
    intros n st L (item & err & I & O & R).
  - contradiction.
  - cbn [stuck_scan].
    destruct (record_id (TUPLE_MSG msg)) as [e|id] eqn:Rm.
    + destruct (overdue 300 inp (fut, msg)) eqn:Om.
      * unfold bind.
        rewrite (stuck_test_unidentified inp fut msg n st e U Om Rm).
        reflexivity.
      * destruct I as [<-|I]; [congruence|].
        rewrite (bind_run _ _ _ _ _ _
                   (proj1 (stuck_test_unset inp fut msg n st U) Om)).
        cbn [trace_of snd app].
        destruct (Nat.leb_spec (max_workers cfg) n) as [C|C];
          [simpl in L; lia|].
        msimp. apply IH; [simpl in L; lia|].
        exists item, err. auto.
    + destruct I as [<-|I]; [cbn [snd] in R; congruence|].
      assert (Hrest : exists item err, In item rest /\
                        overdue 300 inp item = true /\
                        record_id (TUPLE_MSG (snd item)) = inl err)
        by (exists item, err; auto).
      assert (Hlen : (1 <= List.length rest)%nat)
        by (destruct rest; [contradiction|simpl; lia]).
      destruct (overdue 300 inp (fut, msg)) eqn:Om.
      * rewrite (bind_run _ _ _ _ _ _
                   (proj2 (stuck_test_unset inp fut msg n st U) Om id Rm)).
        cbn [trace_of snd app filter is_all_stuck long_line].
        destruct (Nat.leb_spec (max_workers cfg) (S n)) as [C|C];
          [simpl in L; lia|].
        msimp. apply IH; [simpl in L; lia|exact Hrest].
      * rewrite (bind_run _ _ _ _ _ _
                   (proj1 (stuck_test_unset inp fut msg n st U) Om)).
        cbn [trace_of snd app].
        destruct (Nat.leb_spec (max_workers cfg) n) as [C|C];
          [simpl in L; lia|].
        msimp. apply IH; [simpl in L; lia|exact Hrest].
Qed.

Lemma all_stuck_lines (inp : IterInput) (items : registry) :
  env_LONG_RECORD cfg = None ->
  (forall item, In item items -> overdue 300 inp item = true ->
                exists id, record_id (TUPLE_MSG (snd item)) = inr id) ->
  forall n st,
    (n + List.length items <= max_workers cfg)%nat ->
    filter is_all_stuck (trace_of (stuck_scan inp items n st))
    = if all_slots_stuck inp n items
      then [Stdout (AllStuck (max_workers cfg))] else [].
Proof.
  intros U. induction items as [|[fut msg] rest IH]; intros Hid n st L.
  - reflexivity.
  - assert (Hrest : forall item, In item rest ->
                      overdue 300 inp item = true ->
                      exists id, record_id (TUPLE_MSG (snd item)) = inr id)
      by (intros item I; apply Hid; right; exact I).
    destruct (stuck_test_unset inp fut msg n st U) as [No Yes].
    cbn [stuck_scan all_slots_stuck forallb].
    destruct (overdue 300 inp (fut, msg)) eqn:O; cbn [andb].
    + destruct (Hid (fut, msg) (or_introl eq_refl) O) as [id Hrec].
      rewrite (bind_run _ _ _ _ _ _ (Yes eq_refl id Hrec)).
      cbn [trace_of snd app filter is_all_stuck long_line].
      destruct (Nat.leb_spec (max_workers cfg) (S n)) as [C|C].
      * assert (R : rest = [])
          by (destruct rest; [reflexivity|simpl in L; lia]).
        subst rest. eqb_is true. msimp. reflexivity.
      * msimp. rewrite (IH Hrest (S n) st) by (simpl in L; lia).
        unfold all_slots_stuck. destruct rest as [|r rest'].
        -- eqb_is false. rewrite andb_false_r. reflexivity.
        -- replace (S n + List.length (r :: rest'))%nat
             with (n + List.length ((fut, msg) :: r :: rest'))%nat
             by (simpl; lia).
           reflexivity.
    + rewrite (bind_run _ _ _ _ _ _ (No eq_refl)).
      cbn [trace_of snd app].
      destruct (Nat.leb_spec (max_workers cfg) n) as [C|C];
        [simpl in L; lia|].
      msimp. rewrite (IH Hrest n st) by (simpl in L; lia).
      unfold all_slots_stuck. destruct rest as [|r rest']; [reflexivity|].
      eqb_is false. rewrite andb_false_r. reflexivity.
Qed.

(** X5: the all-stuck line.  Over a registry that holds no more tasks than
    the pool has workers, a scan prints the all-stuck line at most once,
    whatever the environment and the records.  With LONG_RECORD unset: if
    [loggingID] identifies every flagged record, the line is printed once
    when the registry is full and every task in it is flagged, and not at
    all otherwise; and if some flagged record cannot be identified, the
    line is not printed, the scan ending at that record. *)
Theorem all_stuck_at_most_once (inp : IterInput) (items : registry)
        (st : State)
        (Hcap : (List.length items <= max_workers cfg)%nat) :
  let lines := filter is_all_stuck (trace_of (stuck_scan inp items 0 st)) in
  (lines = [] \/ lines = [Stdout (AllStuck (max_workers cfg))]) /\
  (List.length lines <= 1)%nat /\
  (env_LONG_RECORD cfg = None ->
   (forall item, In item items -> overdue 300 inp item = true ->
                 exists id, record_id (TUPLE_MSG (snd item)) = inr id) ->
   (items <> [] ->
    forallb (overdue 300 inp) items = true ->
    List.length items = max_workers cfg ->
    lines = [Stdout (AllStuck (max_workers cfg))]) /\
   (items = [] \/ forallb (overdue 300 inp) items = false \/
    (List.length items < max_workers cfg)%nat ->
    lines = [])) /\
  (env_LONG_RECORD cfg = None ->
   forall item err,
     In item items -> overdue 300 inp item = true ->
     record_id (TUPLE_MSG (snd item)) = inl err ->
     lines = []).
Proof.
  intros lines. unfold lines.
  pose proof (all_stuck_bound inp items 0 st Hcap) as B.
  split; [exact B|]. split; [destruct B as [-> | ->]; simpl; lia|]. split.
  - intros Henv Hid.
    rewrite (all_stuck_lines inp items Henv Hid 0 st) by (simpl; exact Hcap).
    unfold all_slots_stuck. destruct items as [|item rest].
    + split; [intros N; contradiction|reflexivity].
    + split.
      * intros _ -> E. eqb_is true. reflexivity.
      * intros [N|[->|Lt]]; [discriminate|reflexivity|].
        eqb_is false. rewrite andb_false_r. reflexivity.
  - intros Henv item err I O R.
    apply (all_stuck_none_unidentified inp items Henv 0 st Hcap).
    exists item, err. auto.
Qed.

(** *** The sentinel of the rate line *)

(** X6: the rate printed is never below -1, and it is -1 exactly when the
    elapsed time is zero or negative: for a positive elapsed time the rate
    is zero or more. *)
Theorem rate_sentinel (now : Q) (st : State)
        (Hdue : messages st mod INTERVAL = 0) :
  exists speed,
    trace_of (rate_stats now st)
    = [Stdout (Processed (messages st) speed)] /\
    -1 <= speed /\
    (speed = -1 <-> (now - prevTime st <= 0)%Q).
Proof.
  eexists. rewrite (rate_stats_due now st Hdue). cbn [trace_of snd].
  split; [reflexivity|].
  destruct (Qltb 0 (now - prevTime st)) eqn:D.
  - apply Qltb_lt in D.
    assert (N : (0 <= inject_Z INTERVAL / (now - prevTime st))%Q).
    { apply Qle_shift_div_l; [exact D|]. rewrite Qmult_0_l. discriminate. }
    destruct (py_int_bounds _ N) as [_ Hi].
    assert (P : 0 <= py_int (inject_Z INTERVAL / (now - prevTime st))).
    { assert (Z : (0 < inject_Z
                       (py_int (inject_Z INTERVAL / (now - prevTime st)) + 1))%Q)
        by (eapply Qle_lt_trans; eassumption).
      unfold Qlt in Z. simpl in Z. lia. }
    split; [lia|]. split; [lia|].
    intros Le. exfalso. apply (Qlt_not_le _ _ D). exact Le.
  - apply Qltb_ge in D. split; [lia|]. split; [intros _; exact D|reflexivity].
Qed.

(** *** A worker's outcome at the harvest *)


(** *** Records [loggingID] cannot name *)

Lemma dict_get_absent (items : list (string * json)) (key : string) :
  ~ In key (map fst items) -> dict_get items key = JNull.
Proof.
  induction items as [|[k v] items IH]; simpl; intros N; [reflexivity|].
  destruct (String.eqb_spec k key) as [E|E].
  - exfalso. apply N. left. exact E.
  - apply IH. intros I. apply N. right. exact I.
Qed.

(** X9: the records [loggingID] cannot name.  A decoded object that lacks
    DATA_SOURCE or RECORD_ID, and has no UMF_PROC either, is reported as
    "UNKNOWN RECORD"; a decoded value that is not an object has no [get]
    and raises [AttributeError]. *)
Theorem loggingID_edge_cases (rec : json) :
  (forall items,
      rec = JObj items ->
      ~ In "DATA_SOURCE"%string (map fst items) \/
      ~ In "RECORD_ID"%string (map fst items) ->
      ~ In "UMF_PROC"%string (map fst items) ->
      loggingID rec = inr "UNKNOWN RECORD"%string) /\
  ((forall items, rec <> JObj items) -> loggingID rec = inl AttributeError).
Proof.
  split.
  - intros items -> K U. unfold loggingID.
    rewrite (dict_get_absent items "UMF_PROC" U).
    destruct K as [K|K]; rewrite (dict_get_absent _ _ K); cbn [truthy andb];
      [|rewrite andb_false_r]; reflexivity.
  - intros N. destruct rec; try reflexivity. exfalso. apply (N items).
    reflexivity.
Qed.

(** *** LONG_RECORD taken from the environment *)

Lemma harvest_all_ends (inp : IterInput) (done : list handle) (st : State) :
  ctl_of (for_each done (harvest inp) st) = Normal tt \/
  exists err, ctl_of (for_each done (harvest inp) st) = Raise err.
Proof.
  pose proof (never_for_each EndsContinue done (harvest inp)
                ltac:(discriminate)
                (fun fut => harvest_never EndsContinue inp fut
                              (or_introl eq_refl)) st) as C.
  pose proof (never_for_each EndsExit done (harvest inp)
                ltac:(discriminate)
                (fun fut => harvest_never EndsExit inp fut
                              (or_intror eq_refl)) st) as X.
  pose proof (fuelled_for_each done (harvest inp)
                (harvest_fuelled inp) st) as F.
  destruct (ctl_of (for_each done (harvest inp) st)) as [[]| |err|n|];
    simpl in *; try congruence; eauto.
Qed.

(** X10: LONG_RECORD set in the environment.  The constant is then the
    variable's text, and dividing it by 2 raises [TypeError]: every turn
    that starts with a task in the registry raises, with [TypeError] once
    the completions are harvested if harvesting them raised nothing, and
    the turn does nothing beyond that harvest. *)
Theorem long_record_from_environment (inp : IterInput) (st : State)
        (text : string)
        (Henv : env_LONG_RECORD cfg = Some text)
        (Hin : futures st <> []) :
  let h := for_each (wait_done inp) (harvest inp) st in
  (exists err, ctl_of (iteration inp st) = Raise err) /\
  state_of (iteration inp st) = state_of h /\
  trace_of (iteration inp st) = trace_of h /\
  (ctl_of h = Normal tt -> ctl_of (iteration inp st) = Raise TypeError).
Proof.
  intros h.
  assert (D : drain inp st =
              match ctl_of h with
              | Normal _ => (Raise TypeError, state_of h, trace_of h)
              | _ => h
              end).
  { unfold drain. rewrite bind_get.
    destruct (futures st) as [|item items]; [contradiction|].
    unfold bind. fold h. destruct h as [[c s] t] eqn:E.
    destruct c; try reflexivity.
    rewrite (long_record_check_env_set inp s text Henv).
    cbn [ctl_of state_of trace_of fst snd]. rewrite app_nil_r. reflexivity. }
  assert (I : iteration inp st =
              match ctl_of h with
              | Normal _ => (Raise TypeError, state_of h, trace_of h)
              | _ => h
              end).
  { unfold iteration, bind. rewrite D.
    destruct h as [[c s] t]. destruct c; reflexivity. }
  rewrite I.
  destruct (harvest_all_ends inp (wait_done inp) st) as [C|[err C]];
    fold h in C; rewrite C.
  - split; [exists TypeError; reflexivity|]. repeat split.
  - split; [exists err; exact C|]. repeat split. discriminate.
Qed.

(** *** A record in flight that cannot be identified *)

(** X11: a flagged record that cannot be identified ends the scan.  With
    LONG_RECORD unset, if the first flagged task whose record cannot be
    decoded and named (a repair message, text that is no JSON, JSON that is
    no object) comes after the tasks [pre], the scan raises the error of
    that record, having printed the long-record lines of the flagged tasks
    of [pre] and no others, and leaves the state as it was. *)
Theorem scan_stops_at_unidentified (inp : IterInput)
        (pre post : registry) (fut : handle) (msg : task) (err : exn)
        (n : nat) (st : State)
        (Henv : env_LONG_RECORD cfg = None)
        (Hpre : forall item, In item pre -> overdue 300 inp item = true ->
                  exists id, record_id (TUPLE_MSG (snd item)) = inr id)
        (Hdue : overdue 300 inp (fut, msg) = true)
        (Herr : record_id (TUPLE_MSG msg) = inl err) :
  let scan := stuck_scan inp (pre ++ (fut, msg) :: post) n st in
  ctl_of scan = Raise err /\
  state_of scan = st /\
  filter is_long_line (trace_of scan)
  = map (long_line inp) (filter (overdue 300 inp) pre).
Proof.
  cbv zeta. split; [|split; [apply stuck_scan_state|]].
  - revert n. induction pre as [|[f m] pre IH]; intros n.
    + cbn [app stuck_scan]. unfold bind.
      rewrite (stuck_test_unidentified inp fut msg n st err Henv Hdue Herr).
      reflexivity.
    + assert (Hrest : forall item, In item pre ->
                        overdue 300 inp item = true ->
                        exists id,
                          record_id (TUPLE_MSG (snd item)) = inr id)
        by (intros item I; apply Hpre; right; exact I).
      destruct (stuck_test_unset inp f m n st Henv) as [No Yes].
      cbn [app stuck_scan].
      destruct (overdue 300 inp (f, m)) eqn:O.
      * destruct (Hpre (f, m) (or_introl eq_refl) O) as [id Hrec].
        rewrite (bind_run _ _ _ _ _ _ (Yes eq_refl id Hrec)).
        cbn [ctl_of fst].
        destruct (max_workers cfg <=? S n)%nat; msimp; apply IH; exact Hrest.
      * rewrite (bind_run _ _ _ _ _ _ (No eq_refl)). cbn [ctl_of fst].
        destruct (max_workers cfg <=? n)%nat; msimp; apply IH; exact Hrest.
  - revert n. induction pre as [|[f m] pre IH]; intros n.
    + cbn [app stuck_scan]. unfold bind.
      rewrite (stuck_test_unidentified inp fut msg n st err Henv Hdue Herr).
      reflexivity.
    + assert (Hrest : forall item, In item pre ->
                        overdue 300 inp item = true ->
                        exists id,
                          record_id (TUPLE_MSG (snd item)) = inr id)
        by (intros item I; apply Hpre; right; exact I).
      destruct (stuck_test_unset inp f m n st Henv) as [No Yes].
      cbn [app stuck_scan filter].
      destruct (overdue 300 inp (f, m)) eqn:O.
      * destruct (Hpre (f, m) (or_introl eq_refl) O) as [id Hrec].
        rewrite (bind_run _ _ _ _ _ _ (Yes eq_refl id Hrec)).
        cbn [trace_of snd app filter is_long_line long_line map].
        destruct (max_workers cfg <=? S n)%nat; msimp;
          cbn [filter is_long_line]; rewrite (IH Hrest); reflexivity.
      * rewrite (bind_run _ _ _ _ _ _ (No eq_refl)).
        cbn [trace_of snd app].
        destruct (max_workers cfg <=? n)%nat; msimp;
          cbn [filter is_long_line]; rewrite (IH Hrest); reflexivity.
Qed.

Lemma still_processing_unidentified (sd : ShutdownInput)
      (pre post : registry) (fut : handle) (msg : task) (err : exn)
      (st : State) :
  (forall item, In item pre -> in_flight sd item = true ->
                exists id, record_id (TUPLE_MSG (snd item)) = inr id) ->
  in_flight sd (fut, msg) = true ->
  record_id (TUPLE_MSG msg) = inl err ->
  still_processing sd (pre ++ (fut, msg) :: post) st
  = (Raise err, st, map (still_line sd) (filter (in_flight sd) pre)).
Proof.
  intros Hpre Hin Herr. induction pre as [|[f m] pre IH].
  - cbn [app still_processing filter map]. unfold bind, still_report.
    unfold in_flight in Hin. cbn [fst] in Hin. rewrite Hin, Herr.
    reflexivity.
  - cbn [app still_processing filter]. unfold in_flight at 1. cbn [fst].
    assert (E : still_report sd f m st =
                (Normal tt, st,
                 if negb (shutdown_done sd f)
                 then [still_line sd (f, m)] else [])).
    { unfold still_report, still_line, id_or_empty, age.
      destruct (negb (shutdown_done sd f)) eqn:D; [|reflexivity].
      destruct (Hpre (f, m) (or_introl eq_refl) D) as [id Hrec].
      cbn [snd] in *. rewrite Hrec. cbn [lift]. msimp. reflexivity. }
    rewrite (bind_run _ _ _ _ _ _ E).
    rewrite IH by (intros item I; apply Hpre; right; exact I).
    cbn [ctl_of state_of trace_of fst snd].
    destruct (negb (shutdown_done sd f)); reflexivity.
Qed.

(** X12: a failure inside the shutdown handler.  If, once the loop has
    raised, the first task not yet done whose record cannot be decoded and
    named comes after the tasks [pre] of the registry, the handler prints
    the still-processing lines of the tasks of [pre] that are not done and
    raises; its own shutdown request and exit are skipped, the [with] block
    asks the executor to shut down once, and the outer handler prints the
    error and a traceback and exits with status -1. *)
Theorem failure_inside_shutdown (start : Q) (inps : list IterInput)
        (sd : ShutdownInput) (err : exn) (st1 : State) (t1 : list event)
        (pre post : registry) (fut : handle) (msg : task) (err2 : exn)
        (Hraise : main_loop inps (initial_state start) = (Raise err, st1, t1))
        (Hreg : futures st1 = pre ++ (fut, msg) :: post)
        (Hpre : forall item, In item pre -> in_flight sd item = true ->
                  exists id, record_id (TUPLE_MSG (snd item)) = inr id)
        (Hin : in_flight sd (fut, msg) = true)
        (Herr : record_id (TUPLE_MSG msg) = inl err2) :
  program start inps sd
  = (Exit (-1), st1,
     Stdout (Threads (max_workers cfg))
       :: t1 ++ Stderr (ShuttingDown err) :: Stderr Traceback
       :: map (still_line sd) (filter (in_flight sd) pre)
       ++ [ExecutorShutdown; Stderr (ErrorText err2); Stderr Traceback]).
Proof.
  rewrite (program_after_raise start inps sd err st1 t1 Hraise). cbv zeta.
  rewrite shutdown_handler_trace. cbv zeta. rewrite Hreg.
  rewrite (still_processing_unidentified sd pre post fut msg err2 st1
             Hpre Hin Herr).
  cbn [ctl_of trace_of fst snd]. f_equal. cbn [app]. f_equal.
  repeat (rewrite <- app_assoc; cbn [app]). reflexivity.
Qed.

(** *** The registry after a harvest *)

Lemma dict_pop_filter (d : registry) (k : handle) (v : task)
      (rest : registry) :
  NoDup (map fst d) ->
  dict_pop d k = Some (v, rest) ->
  rest = filter (fun item => negb (Nat.eqb (fst item) k)) d.
Proof.
  revert rest. induction d as [|[k' w] d IH]; simpl; intros rest N P.
  - discriminate.
  - inversion N as [|? ? Nk Nd]; subst.
    destruct (Nat.eqb_spec k' k) as [E|E]; simpl.
    + injection P as _ <-. subst k'. symmetry. apply forallb_filter_id.
      apply forallb_forall. intros [g u] I. simpl.
      destruct (Nat.eqb_spec g k) as [->|]; [|reflexivity].
      exfalso. apply Nk. apply (in_map fst) in I. exact I.
    + destruct (dict_pop d k) as [[w' rest']|]; [|discriminate].
      injection P as -> <-. f_equal. apply IH; auto.
Qed.

Lemma NoDup_keys_filter (p : handle * task -> bool) (d : registry) :
  NoDup (map fst d) -> NoDup (map fst (filter p d)).
Proof.
  induction d as [|[k w] d IH]; simpl; intros N; [constructor|].
  inversion N as [|? ? Nk Nd]; subst.
  destruct (p (k, w)); simpl; [|auto].
  constructor; [|auto]. intros I. apply Nk.
  apply in_map_iff in I. destruct I as ([g u] & <- & I).
  apply filter_In in I. destruct I as [I _]. apply (in_map fst) in I.
  exact I.
Qed.

Lemma harvest_all_registry (inp : IterInput) (done : list handle) :
  forall st,
    NoDup (map fst (futures st)) ->
    NoDup done ->
    (forall fut, In fut done -> In fut (map fst (futures st))) ->
    (forall fut, In fut done -> recoverable (fut_result inp fut) = true) ->
    futures (state_of (for_each done (harvest inp) st))
    = filter (not_among done) (futures st).
Proof.
  induction done as [|fut done IH]; intros st Nk ND K R.
  - cbn. symmetry. apply forallb_filter_id. apply forallb_forall.
    intros item _. reflexivity.
  - inversion ND as [|? ? NI ND']; subst.
    destruct (dict_pop_present (futures st) fut (K fut (or_introl eq_refl)))
      as (msg & rest & P).
    destruct (harvest_recoverable inp fut st msg rest P
                (R fut (or_introl eq_refl))) as (C & _ & F).
    pose proof (dict_pop_filter _ _ _ _ Nk P) as E.
    cbn [for_each]. rewrite (bind_normal _ _ _ tt C).
    cbn [state_of fst snd].
    rewrite IH.
    + rewrite F, E. clear. induction (futures st) as [|[g u] d IHd];
        [reflexivity|].
      unfold not_among in *. cbn [filter fst existsb].
      destruct (Nat.eqb g fut); cbn [negb orb]; [exact IHd|].
      cbn [filter fst].
      destruct (negb (existsb (Nat.eqb g) done)); [f_equal|]; exact IHd.
    + rewrite F, E. apply NoDup_keys_filter. exact Nk.
    + exact ND'.
    + intros g G. rewrite F.
      apply (dict_pop_others _ _ _ _ g P); [|apply K; right; exact G].
      intros ->. contradiction.
    + intros g G. apply R. right. exact G.
Qed.

(** X13: what a harvest leaves in the registry.  When the completed set
    holds distinct futures of the registry whose outcomes are all results
    or failures of the two recoverable classes, harvesting it removes from
    the registry exactly the entries of those futures: the other entries
    stay, unchanged and in their order, and the registry has shrunk by the
    size of the set. *)
Theorem harvest_removes_completed (inp : IterInput) (done : list handle)
        (st : State)
        (Hkeys : NoDup (map fst (futures st)))
        (Hdone : NoDup done)
        (Hreg : forall fut, In fut done -> In fut (map fst (futures st)))
        (Hrec : forall fut, In fut done ->
                            recoverable (fut_result inp fut) = true) :
  let after := state_of (for_each done (harvest inp) st) in
  futures after = filter (not_among done) (futures st) /\
  (forall item,
      In item (futures after) <->
      In item (futures st) /\ ~ In (fst item) done) /\
  (List.length (futures after) + List.length done
   = List.length (futures st))%nat.
Proof.
  intros after.
  pose proof (harvest_all_registry inp done st Hkeys Hdone Hreg Hrec) as E.
  fold after in E.
  assert (M : forall item,
             not_among done item = true <-> ~ In (fst item) done).
  { intros item. unfold not_among. rewrite negb_true_iff.
    split.
    - intros X I. assert (Y : existsb (Nat.eqb (fst item)) done = true).
      { apply existsb_exists. exists (fst item). split; [exact I|].
        apply Nat.eqb_refl. }
      congruence.
    - intros N. destruct (existsb (Nat.eqb (fst item)) done) eqn:X;
        [|reflexivity].
      exfalso. apply N. apply existsb_exists in X.
      destruct X as (g & I & G). apply Nat.eqb_eq in G. subst g. exact I. }
  split; [exact E|]. split.
  - intros item. rewrite E, filter_In, M. reflexivity.
  - rewrite E. clear E after.
    revert Hkeys Hdone Hreg. clear Hrec M. generalize (futures st) as d.
    induction done as [|fut done IH]; intros d Nk ND K.
    + rewrite forallb_filter_id; [simpl; lia|].
      apply forallb_forall. intros item _. reflexivity.
    + inversion ND as [|? ? NI ND']; subst.
      destruct (dict_pop_present d fut (K fut (or_introl eq_refl)))
        as (msg & rest & P).
      pose proof (dict_pop_filter _ _ _ _ Nk P) as E.
      pose proof (dict_pop_length _ _ _ _ P) as L.
      assert (S1 : filter (not_among (fut :: done)) d
                   = filter (not_among done) rest).
      { rewrite E. clear. induction d as [|[g u] d IHd]; [reflexivity|].
        unfold not_among in *. cbn [filter fst existsb].
        destruct (Nat.eqb g fut); cbn [negb orb]; [exact IHd|].
        cbn [filter fst].
        destruct (negb (existsb (Nat.eqb g) done)); [f_equal|]; exact IHd. }
      rewrite S1. simpl List.length.
      assert (H : (List.length (filter (not_among done) rest)
                   + List.length done = List.length rest)%nat).
      { apply IH.
        - rewrite E. apply NoDup_keys_filter. exact Nk.
        - exact ND'.
        - intros g G. apply (dict_pop_others _ _ _ _ g P);
            [|apply K; right; exact G].
          intros ->. contradiction. }
      lia.
Qed.

(** *** The order of the registry *)

Lemma dict_pop_sorted (d : registry) (k : handle) (v : task)
      (rest : registry) :
  StronglySorted lt (map fst d) ->
  dict_pop d k = Some (v, rest) ->
  StronglySorted lt (map fst rest).
Proof.
  revert rest. induction d as [|[k' w] d IH]; simpl; intros rest S P.
  - discriminate.
  - inversion S as [|? ? Sd Fd]; subst.
    destruct (Nat.eqb k' k).
    + injection P as _ <-. exact Sd.
    + destruct (dict_pop d k) as [[w' rest']|] eqn:Q; [|discriminate].
      injection P as -> <-. simpl. constructor; [apply IH; auto|].
      apply Forall_forall. intros g G.
      apply (proj1 (Forall_forall _ _) Fd).
      apply (dict_pop_keys _ _ _ _ g Q). exact G.
Qed.

Lemma sorted_snoc (l : list nat) (x : nat) :
  StronglySorted lt l -> (forall y, In y l -> (y < x)%nat) ->
  StronglySorted lt (l ++ [x]).
Proof.
  induction l as [|a l IH]; simpl; intros S B.
  - constructor; constructor.
  - inversion S as [|? ? Sl Fl]; subst.
    constructor; [apply IH; auto|].
    apply Forall_app. split; [exact Fl|]. constructor; [|constructor].
    apply B. left. reflexivity.
Qed.

Lemma harvest_ordered (inp : IterInput) (fut : handle) :
  preserves in_submission_order (harvest inp fut).
Proof.
  unfold harvest, pop_future. apply preserves_bind.
  - apply preserves_bind_get. intros st H.
    destruct (dict_pop (futures st) fut) as [[m r]|] eqn:P; msimp;
      [|exact H].
    destruct H as [S F]. split.
    + exact (dict_pop_sorted _ _ _ _ S P).
    + intros key I. apply F. apply (dict_pop_keys _ _ _ _ key P). exact I.
  - intros msg. apply preserves_bind;
      [apply preserves_const, handle_result_state|intros _].
    apply preserves_bind; [apply preserves_modify; auto|intros _].
    unfold rate_stats. apply preserves_bind_get. intros st H.
    destruct (messages st mod INTERVAL =? 0); msimp; exact H.
Qed.

Lemma fill_loop_ordered (inp : IterInput) (fuel : nat) :
  forall k, preserves in_submission_order (fill_loop inp fuel k).
Proof.
  induction fuel as [|fuel IH]; intros k; simpl;
    apply preserves_bind_get; intros st H.
  - destruct (List.length (futures st) <? max_workers cfg)%nat; exact H.
  - destruct (List.length (futures st) <? max_workers cfg)%nat; [|exact H].
    rewrite state_of_bind_emit.
    destruct (redo inp k) as [err|t|msg t].
    + exact H.
    + msimp. exact H.
    + rewrite (bind_run _ _ _ _ _ _ (submit_run msg t st)).
      cbn [state_of fst snd]. apply IH. destruct H as [S F].
      assert (N : ~ In (submitted st) (map fst (futures st)))
        by (intros J; apply F in J; lia).
      split.
      * cbn [futures set_submitted set_futures].
        rewrite (dict_set_new _ _ _ N), map_app. simpl.
        apply sorted_snoc; [exact S|exact F].
      * intros key. cbn [futures submitted set_submitted set_futures].
        rewrite (dict_set_new _ _ _ N), map_app, in_app_iff. simpl.
        intros [J|[<-|[]]]; [apply F in J|]; lia.
Qed.

Lemma iteration_ordered (inp : IterInput) :
  preserves in_submission_order (iteration inp).
Proof.
  unfold iteration. apply preserves_bind.
  - unfold drain. apply preserves_bind_get. intros st H.
    destruct (futures st) eqn:E; [exact H|].
    apply preserves_bind; [| |exact H].
    + apply preserves_for_each. intros fut. apply harvest_ordered.
    + intros _. apply long_record_check_frame. intros t s Hs. exact Hs.
  - intros _. unfold govern_and_fill. apply preserves_bind_get.
    intros st H.
    destruct (Qltb (govern inp) 0); [exact H|].
    destruct (max_workers cfg <=? List.length (futures st))%nat; [exact H|].
    apply preserves_bind; [| |exact H].
    + destruct (Qltb 0 (govern inp)); auto with frame.
    + intros _. unfold pause_and_fill. apply preserves_bind_get.
      intros s Hs. apply preserves_bind; [| |exact Hs].
      * destruct (negb (Qeq_bool (empty_pause s) 0)); [|auto with frame].
        destruct (Qltb (pause_clock inp) (empty_pause s));
          [auto with frame|].
        apply preserves_modify. intros s' H'. exact H'.
      * intros _. apply preserves_bind_get. intros s' H'.
        apply fill_loop_ordered. exact H'.
Qed.

(** X14: the registry lists the tasks in flight in the order they were
    submitted.  After any turns from the start, and when the program ends,
    the futures of the registry are strictly increasing, so that no future
    is listed twice, and each was created by an earlier submission; the
    scan and the shutdown report therefore go through the tasks oldest
    submission first. *)
Theorem registry_in_submission_order (start : Q) (inps : list IterInput)
        (sd : ShutdownInput) :
  let s := state_of (main_loop inps (initial_state start)) in
  StronglySorted lt (map fst (futures s)) /\
  NoDup (map fst (futures s)) /\
  (forall key, In key (map fst (futures s)) -> (key < submitted s)%nat) /\
  state_of (program start inps sd) = s.
Proof.
  intros s.
  assert (H : in_submission_order s).
  { apply (preserves_for_each in_submission_order inps turn).
    - intros inp st Hs. rewrite turn_state.
      apply iteration_ordered. exact Hs.
    - split; [constructor|]. intros key I. contradiction. }
  destruct H as [S F]. split; [exact S|]. split; [|split].
  - clear F. induction S as [|a l Sl IH Fa]; [constructor|].
    constructor; [|exact IH]. intros I.
    apply (proj1 (Forall_forall _ _) Fa) in I. lia.
  - exact F.
  - apply program_state.
Qed.

End Redoer.

(** ** The statements on the sample data *)

Ltac qsolve :=
  first [reflexivity | discriminate
        | unfold Qle, Qlt; cbn; lia | cbn; lia].

Lemma governor_decision_witness :
  iteration sample_str sample_loads sample_cfg (idle_turn 5 (-1))
            (initial_state 0)
  = (Continue, initial_state 0, [Sleep 1]) /\
  iteration sample_str sample_loads sample_cfg (idle_turn 5 0) two_in_flight
  = (Continue, two_in_flight, [Sleep 1]) /\
  trace_of (iteration sample_str sample_loads sample_cfg (idle_turn 5 3)
                      (initial_state 0))
  = [Sleep 3; GetRedoRecord; Stdout (NoRedo 60)] /\
  trace_of (iteration sample_str sample_loads sample_cfg (idle_turn 5 0)
                      (initial_state 0))
  = [GetRedoRecord; Stdout (NoRedo 60)].
Proof.
  split; [|split; [|split]].
  - pose proof (governor_decision_honoured sample_str sample_loads sample_cfg
                  (idle_turn 5 (-1)) (initial_state 0) eq_refl) as H.
    cbv zeta in H. destruct H as (H & _). apply H. qsolve.
  - pose proof (governor_decision_honoured sample_str sample_loads sample_cfg
                  (idle_turn 5 0) two_in_flight eq_refl) as H.
    cbv zeta in H. destruct H as (_ & H & _). apply H; qsolve.
  - pose proof (governor_decision_honoured sample_str sample_loads sample_cfg
                  (idle_turn 5 3) (initial_state 0) eq_refl) as H.
    cbv zeta in H. destruct H as (_ & _ & H & _).
    rewrite H; [reflexivity|qsolve|qsolve].
  - pose proof (governor_decision_honoured sample_str sample_loads sample_cfg
                  (idle_turn 5 0) (initial_state 0) eq_refl) as H.
    cbv zeta in H. destruct H as (_ & _ & _ & H).
    destruct H as [H _]; [qsolve|qsolve|]. rewrite H. reflexivity.
Defined.


Lemma recoverable_skips_witness :
  fst (process_msg (third_rejected 7426) "rec3" false)
  = [Stderr (WorkerError (G2BadInputException 7426) "rec3")] /\
  trace_of (harvest (harvest_turn 30 [] (third_is_bad 7426)) 2%nat
                    five_in_flight)
  = [Stdout (TransliterationFailure "rec3")] /\
  messages (state_of (harvest (harvest_turn 30 [] (third_is_bad 33)) 2%nat
                              five_in_flight)) = 1 /\
  fst (process_msg third_timed_out "rec3" false)
  = [Stderr (WorkerError G2RetryTimeoutExceeded "rec3")] /\
  trace_of (harvest (harvest_turn 30 [] third_times_out) 2%nat five_in_flight)
  = [Stdout HitRetryTimeout] /\
  ctl_of (for_each [0; 1; 2; 3; 4]%nat
                   (harvest (harvest_turn 30 [] (third_is_bad 33)))
                   five_in_flight) = Normal tt /\
  messages (state_of (for_each [0; 1; 2; 3; 4]%nat
                        (harvest (harvest_turn 30 [] (third_is_bad 33)))
                        five_in_flight)) = 5.
Proof.
  pose proof (recoverable_skips sample_cfg (third_rejected 7426)
                (harvest_turn 30 [] (third_is_bad 7426))
                2%nat five_in_flight _ _ eq_refl eq_refl) as H1.
  pose proof (recoverable_skips sample_cfg (third_rejected 33)
                (harvest_turn 30 [] (third_is_bad 33))
                2%nat five_in_flight _ _ eq_refl eq_refl) as H2.
  pose proof (recoverable_skips sample_cfg third_timed_out
                (harvest_turn 30 [] third_times_out)
                2%nat five_in_flight _ _ eq_refl eq_refl) as H3.
  cbv zeta in H1, H2, H3.
  destruct H1 as (W1 & H1 & _). destruct H2 as (H2 & _ & _ & H4).
  destruct H3 as (_ & _ & H3 & _).
  split; [|split; [|split; [|split; [|split]]]].
  - destruct (W1 7426 eq_refl) as (W & _). exact W.
  - rewrite H1; reflexivity.
  - destruct (H2 33 eq_refl) as (_ & _ & E & _). rewrite E. reflexivity.
  - destruct (H3 eq_refl) as (W & _). exact W.
  - destruct (H3 eq_refl) as (_ & E & _). rewrite E. reflexivity.
  - apply (H4 [0; 1; 2; 3; 4]%nat).
    + repeat constructor; cbn; intuition discriminate.
    + intros f I. exact I.
    + intros f I. cbn in I.
      repeat (destruct I as [<-|I]; [reflexivity|]). contradiction.
Defined.

Lemma bad_input_silent_witness :
  fst (process_msg (third_rejected 33) "rec3" false)
  = [Stderr (WorkerError (G2BadInputException 33) "rec3")] /\
  trace_of (harvest (harvest_turn 30 [] (third_is_bad 33)) 2%nat
                    five_in_flight) = [] /\
  messages (state_of (harvest (harvest_turn 30 [] (third_is_bad 33)) 2%nat
                              five_in_flight))
  = messages five_in_flight + 1 /\
  map fst (futures (state_of (harvest (harvest_turn 30 []
                                                    (third_is_bad 33))
                                      2%nat five_in_flight)))
  = [0; 1; 3; 4]%nat.
Proof.
  pose proof (bad_input_other_code_silent sample_cfg (third_rejected 33)
                (harvest_turn 30 [] (third_is_bad 33)) 2%nat five_in_flight
                _ _ 33 eq_refl eq_refl eq_refl) as H.
  cbv zeta in H. destruct H as (W & _ & _ & _ & Hm & Hf & Hq & _);
    [discriminate|].
  split; [exact W|]. split; [apply Hq; discriminate|].
  split; [exact Hm|]. rewrite Hf. reflexivity.
Defined.


Lemma stuck_task_witness :
  let scan :=
    stuck_scan sample_str sample_loads sample_cfg (idle_turn 1000 0)
               old_and_new 0 two_in_flight in
  ctl_of scan = Normal tt /\
  state_of scan = two_in_flight /\
  filter is_long_line (trace_of scan)
  = [Stdout (LongRecord ((1000 - 0) / 60) "TEST : rec1")].
Proof.
  assert (Hid : forall item, In item old_and_new ->
                  overdue 300 (idle_turn 1000 0) item = true ->
                  exists id,
                    record_id sample_str sample_loads (TUPLE_MSG (snd item))
                    = inr id).
  { intros item I _. cbn in I.
    destruct I as [<-|[<-|[]]]; eexists; reflexivity. }
  pose proof (stuck_task_detection sample_str sample_loads sample_cfg
                (idle_turn 1000 0) old_and_new 0%nat two_in_flight
                eq_refl Hid) as H.
  cbv zeta in *. destruct H as (_ & C & S & F & _).
  split; [exact C|]. split; [exact S|]. rewrite F. reflexivity.
Defined.

Lemma periodic_check_witness :
  drain sample_str sample_loads sample_cfg (idle_turn 1000 0)
        (initial_state 0)
  = (Normal tt, initial_state 0, []) /\
  drain sample_str sample_loads sample_cfg (idle_turn 1000 0) two_in_flight
  = (Normal tt, set_logCheckTime 1000 two_in_flight,
     [Stdout (Stats "stats");
      Stdout (LongRecord ((1000 - 0) / 60) "TEST : rec1");
      Stdout (LongRecord ((1000 - 0) / 60) "TEST : rec2");
      Stdout (AllStuck 2)]) /\
  drain sample_str sample_loads sample_cfg (idle_turn 5 0) two_in_flight
  = (Normal tt, two_in_flight, []).
Proof.
  split; [|split].
  - pose proof (periodic_check sample_str sample_loads sample_cfg
                  (idle_turn 1000 0) (initial_state 0) eq_refl) as H.
    cbv zeta in H. destruct H as (H & _). apply H. reflexivity.
  - pose proof (periodic_check sample_str sample_loads sample_cfg
                  (idle_turn 1000 0) two_in_flight eq_refl) as H.
    cbv zeta in H. destruct H as (_ & H & _).
    destruct H as (H & _); [discriminate|reflexivity|qsolve|].
    rewrite H. reflexivity.
  - pose proof (periodic_check sample_str sample_loads sample_cfg
                  (idle_turn 5 0) two_in_flight eq_refl) as H.
    cbv zeta in H. destruct H as (_ & _ & H).
    rewrite H; [reflexivity|discriminate|reflexivity|qsolve].
Defined.


Lemma loggingID_witness :
  loggingID sample_str
            (JObj [("DATA_SOURCE"%string, JStr "TEST");
                   ("RECORD_ID"%string, JStr "1001")])
  = inr "TEST : 1001"%string /\
  record_id sample_str sample_loads "repair" = inl (NameError "PARAMS").
Proof.
  split.
  - apply (loggingID_shapes sample_str
             [("DATA_SOURCE"%string, JStr "TEST");
              ("RECORD_ID"%string, JStr "1001")]); reflexivity.
  - unfold record_id. cbn [sample_loads String.eqb Ascii.eqb Bool.eqb].
    apply (loggingID_shapes sample_str); reflexivity.
Defined.

(** ** Where the code departs from the specification, on sample runs *)


(** A record the engine rejects as bad input with code 33: before the loop
    harvests the failure in silence, the worker has written a line for the
    record to the standard error. *)
Lemma worker_writes_for_other_code :
  let inp := harvest_turn 30 [] (third_is_bad 33) in
  33 <> 7426 /\
  fut_result inp 2%nat
  = snd (process_msg (third_rejected 33) "rec3" (info sample_cfg)) /\
  fut_result inp 2%nat = Raised (G2BadInputException 33) /\
  fst (process_msg (third_rejected 33) "rec3" (info sample_cfg))
  = [Stderr (WorkerError (G2BadInputException 33) "rec3")] /\
  fst (process_msg (third_rejected 33) "rec3" (info sample_cfg)) <> [].
Proof.
  cbv zeta. split; [discriminate|]. split; [reflexivity|].
  split; [reflexivity|]. split; [reflexivity|discriminate].
Qed.

(** A task of the registry aged 1000 seconds, more than 300 * 2, that is
    done when the scan asks: the scan prints nothing. *)
Lemma done_task_is_not_flagged :
  (inject_Z (300 * 2) < age 1000 ("rec1"%string, 0%Q))%Q /\
  stuck_scan sample_str sample_loads sample_cfg (settled_turn 1000)
             [(0%nat, ("rec1"%string, 0%Q))] 0 two_in_flight
  = (Normal tt, two_in_flight, []).
Proof. split; reflexivity. Qed.

(** A turn that starts with an empty registry at clock reading 1000, the
    last check having been at 0: no statistics are printed and
    [logCheckTime] stays 0. *)
Lemma empty_registry_skips_periodic_check :
  let st := initial_state 0 in
  let run :=
    iteration sample_str sample_loads sample_cfg (idle_turn 1000 0) st in
  futures st = [] /\
  (logCheckTime st + 300 / 2 < nowTime (idle_turn 1000 0))%Q /\
  logCheckTime (state_of run) = 0%Q /\
  ~ (logCheckTime (state_of run) == nowTime (idle_turn 1000 0))%Q /\
  forall response, ~ In (Stdout (Stats response)) (trace_of run).
Proof.
  cbv zeta. split; [reflexivity|]. split; [reflexivity|].
  split; [reflexivity|]. split; [discriminate|].
  intros response I. vm_compute in I.
  repeat (destruct I as [I|I]; [discriminate|]). contradiction.
Qed.

(** A repair message in flight for 1000 seconds: the scan flags it, and
    identifying it raises [NameError] out of the scan. *)
Lemma repair_record_breaks_scan :
  stuck_scan sample_str sample_loads sample_cfg (idle_turn 1000 0)
             (futures repair_in_flight) 0 repair_in_flight
  = (Raise (NameError "PARAMS"), repair_in_flight, []).
Proof. reflexivity. Qed.

(** With LONG_RECORD set to 600 in the environment, the first turn that
    finds a task in the registry raises [TypeError] and the program shuts
    down. *)
Lemma long_record_from_environment_aborts :
  program sample_str sample_loads (mkConfig (Some "600"%string) None 2 false)
          0 [fetch_turn 0; idle_turn 1 0] (all_done 2)
  = (Exit (-1),
     mkState [(0%nat, ("rec1"%string, 0%Q)); (1%nat, ("rec2"%string, 0%Q))]
             0%Q 0 0%Q 0%Q 2%nat,
     [Stdout (Threads 2);
      GetRedoRecord; Submit 0%nat "rec1" false;
      GetRedoRecord; Submit 1%nat "rec2" false;
      Stderr (ShuttingDown TypeError); Stderr Traceback;
      ExecutorShutdown; ExecutorShutdown]).
Proof. reflexivity. Qed.

(** A worker whose engine call fails writes the failure to the standard
    error before its future gets the exception. *)
Lemma process_msg_failure (engine : string -> bool -> exn + string)
      (msg : string) (with_info : bool) (err : exn) :
  engine msg with_info = inl err ->
  process_msg engine msg with_info
  = ([Stderr (WorkerError err msg)], Raised err).
Proof. intros E. unfold process_msg. rewrite E. reflexivity. Qed.


(** ** The further properties on the sample data *)

Lemma every_submission_accounted_witness :
  let run :=
    main_loop sample_str sample_loads sample_cfg
              [fetch_turn 0; harvest_turn 30 [0%nat] all_succeed]
              (initial_state 0) in
  submit_count (trace_of run) = 2%nat /\
  Z.of_nat (submitted (state_of run))
  = messages (state_of run)
    + Z.of_nat (List.length (futures (state_of run))).
Proof.
  pose proof (every_submission_accounted sample_str sample_loads sample_cfg
                0 [fetch_turn 0; harvest_turn 30 [0%nat] all_succeed]) as H.
  cbv zeta in *. destruct H as (T & _ & _ & B).
  split; [rewrite T; reflexivity|apply B; reflexivity].
Defined.

Lemma fill_loop_submits_witness :
  let run := fill_loop sample_cfg (fetch_turn 7) 2 0 (initial_state 0) in
  futures (state_of run)
  = [(0%nat, ("rec1"%string, 7%Q)); (1%nat, ("rec2"%string, 7%Q))] /\
  submissions (trace_of run)
  = [(0%nat, "rec1"%string); (1%nat, "rec2"%string)] /\
  ctl_of run = Normal tt /\
  List.length (futures (state_of run)) = max_workers sample_cfg.
Proof.
  assert (F : fresh (initial_state 0)) by (intros key I; contradiction).
  pose proof (fill_loop_submits_in_order sample_cfg (fetch_turn 7)
                (initial_state 0) F) as H.
  cbv zeta in *. destruct H as (Hf & Hs & _ & Hc).
  destruct Hc as [C L]; [reflexivity|].
  split; [etransitivity; [exact Hf|reflexivity]|].
  split; [etransitivity; [exact Hs|reflexivity]|].
  split; [exact C|]. apply L. cbn. lia.
Defined.

Lemma registry_set_then_pop_witness :
  dict_pop (dict_set old_and_new 2%nat ("rec3"%string, 950%Q)) 2%nat
  = Some (("rec3"%string, 950%Q), old_and_new) /\
  dict_pop (dict_set old_and_new 1%nat ("rec3"%string, 950%Q)) 1%nat
  = Some (("rec3"%string, 950%Q), [(0%nat, ("rec1"%string, 0%Q))]) /\
  dict_pop (dict_set old_and_new 2%nat ("rec3"%string, 950%Q)) 0%nat
  = Some (("rec1"%string, 0%Q),
          [(1%nat, ("rec2"%string, 900%Q)); (2%nat, ("rec3"%string, 950%Q))]).
Proof.
  split; [|split].
  - apply (registry_set_then_pop old_and_new 2%nat ("rec3"%string, 950%Q)).
    cbn. intuition discriminate.
  - apply (proj1 (proj2 (registry_set_then_pop old_and_new 1%nat
                           ("rec3"%string, 950%Q)))
             ("rec2"%string, 900%Q)).
    reflexivity.
  - rewrite (proj2 (proj2 (registry_set_then_pop old_and_new 2%nat
                             ("rec3"%string, 950%Q))) 0%nat);
      [reflexivity|discriminate].
Defined.

Lemma all_stuck_witness :
  filter is_all_stuck
         (trace_of (stuck_scan sample_str sample_loads sample_cfg
                               (idle_turn 1000 0) (futures two_in_flight)
                               0 two_in_flight))
  = [Stdout (AllStuck 2)] /\
  filter is_all_stuck
         (trace_of (stuck_scan sample_str sample_loads sample_cfg
                               (idle_turn 1000 0) old_and_new
                               0 two_in_flight))
  = [] /\
  filter is_all_stuck
         (trace_of (stuck_scan sample_str sample_loads
                               (mkConfig None None 1 false)
                               (idle_turn 1000 0) (futures repair_in_flight)
                               0 repair_in_flight))
  = [].
Proof.
  assert (Hid : forall items item,
             In item items ->
             items = futures two_in_flight \/ items = old_and_new ->
             exists id,
               record_id sample_str sample_loads (TUPLE_MSG (snd item))
               = inr id).
  { intros items item I [-> | ->]; cbn in I;
      destruct I as [<-|[<-|[]]]; eexists; reflexivity. }
  assert (Two : (List.length (futures two_in_flight)
                 <= max_workers sample_cfg)%nat) by (cbn; lia).
  assert (Old : (List.length old_and_new <= max_workers sample_cfg)%nat)
    by (cbn; lia).
  assert (One : (List.length (futures repair_in_flight)
                 <= max_workers (mkConfig None None 1 false))%nat)
    by (cbn; lia).
  split; [|split].
  - apply (proj1 (proj2 (proj2
             (all_stuck_at_most_once sample_str sample_loads sample_cfg
                (idle_turn 1000 0) (futures two_in_flight) two_in_flight
                Two))) eq_refl).
    + intros item I _. apply (Hid _ item I). left. reflexivity.
    + discriminate.
    + reflexivity.
    + reflexivity.
  - apply (proj1 (proj2 (proj2
             (all_stuck_at_most_once sample_str sample_loads sample_cfg
                (idle_turn 1000 0) old_and_new two_in_flight Old))) eq_refl).
    + intros item I _. apply (Hid _ item I). right. reflexivity.
    + right. left. reflexivity.
  - apply (proj2 (proj2 (proj2
             (all_stuck_at_most_once sample_str sample_loads
                (mkConfig None None 1 false) (idle_turn 1000 0)
                (futures repair_in_flight) repair_in_flight One))) eq_refl
             (0%nat, ("repair"%string, 0%Q)) (NameError "PARAMS")).
    + left. reflexivity.
    + reflexivity.
    + reflexivity.
Defined.

Lemma rate_sentinel_witness :
  exists speed,
    trace_of (rate_stats 0 thousand_done)
    = [Stdout (Processed 1000 speed)] /\ speed = -1.
Proof.
  destruct (rate_sentinel 0 thousand_done eq_refl) as (speed & T & _ & S).
  exists speed. split; [exact T|]. apply S. qsolve.
Defined.


Lemma loggingID_edge_witness :
  loggingID sample_str (JObj [("DATA_SOURCE"%string, JStr "TEST")])
  = inr "UNKNOWN RECORD"%string /\
  loggingID sample_str (JArr []) = inl AttributeError.
Proof.
  split.
  - apply (proj1 (loggingID_edge_cases sample_str
                    (JObj [("DATA_SOURCE"%string, JStr "TEST")]))
             [("DATA_SOURCE"%string, JStr "TEST")] eq_refl).
    + right. cbn. intuition discriminate.
    + cbn. intuition discriminate.
  - apply (proj2 (loggingID_edge_cases sample_str (JArr []))).
    intros items. discriminate.
Defined.

Lemma long_record_from_environment_witness :
  iteration sample_str sample_loads long_record_set (idle_turn 1 0)
            two_in_flight
  = (Raise TypeError, two_in_flight, []).
Proof.
  pose proof (long_record_from_environment sample_str sample_loads
                long_record_set (idle_turn 1 0) two_in_flight
                "600"%string eq_refl) as H.
  cbv zeta in H. destruct H as (_ & S & T & C); [discriminate|].
  rewrite (surjective_pairing (iteration _ _ _ _ _)).
  rewrite (surjective_pairing (fst (iteration _ _ _ _ _))).
  unfold ctl_of, state_of, trace_of in *. rewrite S, T, (C eq_refl).
  reflexivity.
Defined.

Lemma scan_stops_witness :
  let scan :=
    stuck_scan sample_str sample_loads three_workers (idle_turn 1000 0)
               [(1%nat, ("rec2"%string, 0%Q));
                (2%nat, ("repair"%string, 0%Q));
                (3%nat, ("rec4"%string, 0%Q))]
               0 two_in_flight in
  ctl_of scan = Raise (NameError "PARAMS") /\
  filter is_long_line (trace_of scan)
  = [Stdout (LongRecord ((1000 - 0) / 60) "TEST : rec2")].
Proof.
  pose proof (scan_stops_at_unidentified sample_str sample_loads
                three_workers (idle_turn 1000 0)
                [(1%nat, ("rec2"%string, 0%Q))]
                [(3%nat, ("rec4"%string, 0%Q))]
                2%nat ("repair"%string, 0%Q) (NameError "PARAMS")
                0%nat two_in_flight eq_refl) as H.
  cbv zeta in *. destruct H as (C & _ & L).
  - intros item I _. cbn in I. destruct I as [<-|[]]. eexists. reflexivity.
  - reflexivity.
  - reflexivity.
  - split; [exact C|]. etransitivity; [exact L|]. reflexivity.
Defined.

Lemma failure_inside_shutdown_witness :
  program sample_str sample_loads three_workers 0
          [repair_fetch_turn 0; harvest_turn 30 [0%nat] first_is_fatal]
          (all_running 90)
  = (Exit (-1),
     mkState [(1%nat, ("rec2"%string, 0%Q)); (2%nat, ("repair"%string, 0%Q))]
             0%Q 0 0%Q 0%Q 3%nat,
     [Stdout (Threads 3);
      GetRedoRecord; Submit 0%nat "rec1" false;
      GetRedoRecord; Submit 1%nat "rec2" false;
      GetRedoRecord; Submit 2%nat "repair" false;
      Stderr (ShuttingDown (OtherException "G2Exception"));
      Stderr Traceback;
      Stdout (StillProcessing ((90 - 0) / 60) "TEST : rec2");
      ExecutorShutdown;
      Stderr (ErrorText (NameError "PARAMS")); Stderr Traceback]).
Proof.
  rewrite (failure_inside_shutdown sample_str sample_loads three_workers 0
             [repair_fetch_turn 0; harvest_turn 30 [0%nat] first_is_fatal]
             (all_running 90) _ _ _
             [(1%nat, ("rec2"%string, 0%Q))] [] 2%nat
             ("repair"%string, 0%Q) (NameError "PARAMS") eq_refl eq_refl).
  - reflexivity.
  - intros item I _. cbn in I. destruct I as [<-|[]]. eexists. reflexivity.
  - reflexivity.
  - reflexivity.
Defined.

Lemma harvest_removes_completed_witness :
  futures (state_of (for_each [3; 1]%nat
                       (harvest (harvest_turn 30 [] (third_is_bad 33)))
                       five_in_flight))
  = [(0%nat, ("rec1"%string, 0%Q)); (2%nat, ("rec3"%string, 0%Q));
     (4%nat, ("rec5"%string, 0%Q))].
Proof.
  pose proof (harvest_removes_completed
                (harvest_turn 30 [] (third_is_bad 33)) [3; 1]%nat
                five_in_flight) as H.
  cbv zeta in H. destruct H as (E & _).
  - cbn. repeat constructor; cbn; intuition discriminate.
  - repeat constructor; cbn; intuition discriminate.
  - intros fut I. cbn in *. intuition.
  - intros fut I. cbn in I.
    repeat (destruct I as [<-|I]; [reflexivity|]). contradiction.
  - etransitivity; [exact E|reflexivity].
Defined.

Lemma registry_order_witness :
  let s :=
    state_of (main_loop sample_str sample_loads three_workers
                        [repair_fetch_turn 0;
                         harvest_turn 30 [1%nat] all_succeed]
                        (initial_state 0)) in
  map fst (futures s) = [0; 2]%nat /\ (2 < submitted s)%nat.
Proof.
  pose proof (registry_in_submission_order sample_str sample_loads
                three_workers 0
                [repair_fetch_turn 0; harvest_turn 30 [1%nat] all_succeed]
                (all_running 90)) as H.
  cbv zeta in *. destruct H as (_ & _ & F & _).
  split; [reflexivity|]. apply F. cbn. auto.
Defined.
